(** * Verification of the CLIP model assembly and checkpoint adapter
    (open_clip/model.py of sparo-clip).

    Python integers are modelled as [Z] (floor division [//] is [Z.div]
    guarded against a zero divisor), tensors by their shape, dtype and
    payload, state dicts as [gmap string Tensor], and the external
    collaborators (tower constructors, [F.interpolate], the tower forward
    passes) by descriptors or by section variables with their contracts.
    Real-valued tensor arithmetic is modelled in exact real arithmetic. *)

From Stdlib Require Import ZArith Lia Reals Lra Psatz Ascii.
From stdpp Require Import base gmap sets strings list.

Open Scope Z_scope.
Set Warnings "-register-all".

(* ------------------------------------------------------------------ *)
(** ** Python exceptions and the error monad *)

Inductive exn :=
| ValueError
| NotImplementedError
| AssertionError
| RuntimeError
| TypeError
| ZeroDivisionError
| IndexError
| KeyError
| AttributeError.

Inductive result (A : Type) : Type :=
| Ok (a : A)
| Err (e : exn).
Arguments Ok {A} a.
Arguments Err {A} e.

Global Instance result_ret : MRet result := fun A a => Ok a.
Global Instance result_bind : MBind result :=
  fun A B f m => match m with Ok a => f a | Err e => Err e end.

Definition raise {A} (e : exn) : result A := Err e.

(** Python [assert c]. *)
Definition assert_ (c : bool) : result unit :=
  if c then Ok tt else Err AssertionError.

(** Python's [a // b] on [int]: floor division, [ZeroDivisionError] on 0. *)
Definition floordiv (a b : Z) : result Z :=
  if Z.eqb b 0 then Err ZeroDivisionError else Ok (Z.div a b).

(** [s.endswith(suf)]. *)
Definition endswith (s suf : string) : bool :=
  let n := String.length s in
  let m := String.length suf in
  Nat.leb m n && String.eqb (String.substring (n - m)%nat m s) suf.

(** Truthiness of an [Optional[str]] field ([None] and [""] are false). *)
Definition str_truthy (o : option string) : bool :=
  match o with Some s => negb (String.eqb s "") | None => false end.

(* ------------------------------------------------------------------ *)
(** ** Data model: configurations, dtypes, tower descriptors *)

Inductive dtype := float32 | float16 | bfloat16 | float64.

Global Instance dtype_eq_dec : EqDecision dtype.
Proof. solve_decision. Defined.

(** [CLIPVisionCfg.layers : Union[Tuple[int,int,int,int], int]]. *)
Inductive Layers :=
| LayersInt (n : Z)
| LayersTuple (a b c d : Z).

(** The fields of [CLIPVisionCfg] that the model code reads. *)
Record CLIPVisionCfg := {
  vc_layers : Layers;
  vc_width : Z;
  vc_head_width : Z;
  vc_patch_size : option Z;
  vc_image_size : Z;
  vc_timm_model_name : option string
}.

(** The fields of [CLIPTextCfg] that the model code reads. *)
Record CLIPTextCfg := {
  tc_context_length : Z;
  tc_vocab_size : Z;
  tc_width : Z;
  tc_heads : Z;
  tc_layers : Z;
  tc_hf_model_name : option string
}.

(** Defaults of the dataclasses. *)
Definition default_vision_cfg : CLIPVisionCfg := {|
  vc_layers := LayersInt 12; vc_width := 768; vc_head_width := 64;
  vc_patch_size := Some 16; vc_image_size := 224; vc_timm_model_name := None |}.

Definition default_text_cfg : CLIPTextCfg := {|
  tc_context_length := 77; tc_vocab_size := 49408; tc_width := 512;
  tc_heads := 8; tc_layers := 12; tc_hf_model_name := None |}.

Inductive act_kind := QuickGELU | GELU.
Inductive norm_kind := LayerNormFp32 | LayerNorm.

(** Tower constructors are external collaborators: a tower is modelled by
    the constructor called and the arguments the factory computes. *)
Inductive VisualTower :=
| TimmModel (name : string) (embed_dim : Z)
| ModifiedResNet (layers : Z * Z * Z * Z) (output_dim heads image_size width : Z)
| SPAROVisionTransformer (image_size : Z) (patch_size : option Z)
    (width layers heads output_dim : Z) (act : act_kind) (norm : norm_kind)
    (L V : option Z)
| VisionTransformer (image_size : Z) (patch_size : option Z)
    (width layers heads output_dim : Z) (act : act_kind) (norm : norm_kind)
    (use_codebook : bool).

Inductive TextTower :=
| HFTextEncoder (name : string) (output_dim : Z)
| SPAROTextTransformer (context_length vocab_size width heads layers output_dim : Z)
    (act : act_kind) (norm : norm_kind) (L V : option Z)
| TextTransformer (context_length vocab_size width heads layers output_dim : Z)
    (act : act_kind) (norm : norm_kind) (use_codebook : bool).

(** The head count handed to a vision tower constructor. *)
Definition visual_heads (t : VisualTower) : option Z :=
  match t with
  | TimmModel _ _ => None
  | ModifiedResNet _ _ h _ _ => Some h
  | SPAROVisionTransformer _ _ _ _ h _ _ _ _ _ => Some h
  | VisionTransformer _ _ _ _ h _ _ _ _ => Some h
  end.

Definition norm_layer_for (cast_dtype : option dtype) : norm_kind :=
  match cast_dtype with
  | Some float16 | Some bfloat16 => LayerNormFp32
  | _ => LayerNorm
  end.

Definition act_layer_for (quick_gelu : bool) : act_kind :=
  if quick_gelu then QuickGELU else GELU.

(** [get_cast_dtype(precision)]. *)
Definition get_cast_dtype (precision : string) : option dtype :=
  if String.eqb precision "bf16" then Some bfloat16
  else if String.eqb precision "fp16" then Some float16
  else None.

(** [get_input_dtype(precision)]. *)
Definition get_input_dtype (precision : string) : option dtype :=
  if String.eqb precision "bf16" || String.eqb precision "pure_bf16" then Some bfloat16
  else if String.eqb precision "fp16" || String.eqb precision "pure_fp16" then Some float16
  else None.

(* ------------------------------------------------------------------ *)
(** ** Tower factories *)

(** [_build_vision_tower]. *)
Definition _build_vision_tower (embed_dim : Z) (vision_cfg : CLIPVisionCfg)
    (quick_gelu : bool) (cast_dtype : option dtype) (use_sparo : bool)
    (L V : option Z) (reduce_depth : Z) (use_codebook : bool)
    : result VisualTower :=
  let act_layer := act_layer_for quick_gelu in
  if str_truthy (vc_timm_model_name vision_cfg) then
    Ok (TimmModel (default "" (vc_timm_model_name vision_cfg)) embed_dim)
  else
    match vc_layers vision_cfg with
    | LayersTuple l0 l1 l2 l3 =>
        _ ← assert_ (negb use_sparo);
        vision_heads ← floordiv (vc_width vision_cfg * 32) (vc_head_width vision_cfg);
        Ok (ModifiedResNet (l0, l1, l2 - reduce_depth, l3) embed_dim vision_heads
              (vc_image_size vision_cfg) (vc_width vision_cfg))
    | LayersInt layers =>
        vision_heads ← floordiv (vc_width vision_cfg) (vc_head_width vision_cfg);
        let norm_layer := norm_layer_for cast_dtype in
        if use_sparo then
          Ok (SPAROVisionTransformer (vc_image_size vision_cfg) (vc_patch_size vision_cfg)
                (vc_width vision_cfg) (layers - reduce_depth) vision_heads embed_dim
                act_layer norm_layer L V)
        else
          Ok (VisionTransformer (vc_image_size vision_cfg) (vc_patch_size vision_cfg)
                (vc_width vision_cfg) (layers - reduce_depth) vision_heads embed_dim
                act_layer norm_layer use_codebook)
    end.

(** [_build_text_tower]. *)
Definition _build_text_tower (embed_dim : Z) (text_cfg : CLIPTextCfg)
    (quick_gelu : bool) (cast_dtype : option dtype) (use_sparo : bool)
    (L V : option Z) (reduce_depth : Z) (use_codebook : bool)
    : result TextTower :=
  if str_truthy (tc_hf_model_name text_cfg) then
    Ok (HFTextEncoder (default "" (tc_hf_model_name text_cfg)) embed_dim)
  else
    let act_layer := act_layer_for quick_gelu in
    let norm_layer := norm_layer_for cast_dtype in
    if use_sparo then
      Ok (SPAROTextTransformer (tc_context_length text_cfg) (tc_vocab_size text_cfg)
            (tc_width text_cfg) (tc_heads text_cfg) (tc_layers text_cfg - reduce_depth)
            embed_dim act_layer norm_layer L V)
    else
      Ok (TextTransformer (tc_context_length text_cfg) (tc_vocab_size text_cfg)
            (tc_width text_cfg) (tc_heads text_cfg) (tc_layers text_cfg - reduce_depth)
            embed_dim act_layer norm_layer use_codebook).

(* ------------------------------------------------------------------ *)
(** ** The composite model: [CLIP.__init__] *)

(** The constructor arguments of [CLIP] that the assembly logic reads
    (the SPARO attention/value dimensions, head count, [share_kv],
    [share_queries], [output_dict] and [num_codes] are only passed
    through to external constructors). *)
Record CLIPArgs := {
  a_embed_dim : Z;
  a_vision_cfg : CLIPVisionCfg;
  a_text_cfg : CLIPTextCfg;
  a_quick_gelu : bool;
  a_cast_dtype : option dtype;
  a_use_sparo : bool;
  a_L : option Z;
  a_V : option Z;
  a_reduce_depth : Z;
  a_sparo_type : string;
  a_use_codebook : bool;
  a_bottleneck_dim : option Z
}.

Record CLIP := {
  embed_dim : Z;
  use_sparo : bool;
  L : option Z;
  V : option Z;
  model_V : option Z;
  sparo_type : string;
  use_codebook : bool;
  bottleneck_dim : option Z;
  visual : VisualTower;
  text : TextTower
}.

(** What the constructor has built so far, in order. *)
Inductive build_event :=
| BuiltVisual (t : VisualTower)
| BuiltText (t : TextTower).

(** Python's [bottleneck_dim or embed_dim]. *)
Definition or_int (o : option Z) (d : Z) : Z :=
  match o with Some b => if Z.eqb b 0 then d else b | None => d end.

(** [CLIP.__init__]: the towers built (in order) and the outcome. *)
Definition CLIP_init (a : CLIPArgs) : list build_event * result CLIP :=
  if a_use_sparo a && a_use_codebook a then ([], Err ValueError) else
  let mV : result (option Z) :=
    if negb (a_use_sparo a) || negb (endswith (a_sparo_type a) "softmax")
    then Ok (a_V a)
    else match a_V a with Some v => Ok (Some (v + 1)) | None => Err TypeError end in
  match mV with
  | Err e => ([], Err e)
  | Ok mv =>
    let tower_dim := or_int (a_bottleneck_dim a) (a_embed_dim a) in
    match _build_vision_tower tower_dim (a_vision_cfg a) (a_quick_gelu a)
            (a_cast_dtype a) (a_use_sparo a) (a_L a) mv (a_reduce_depth a)
            (a_use_codebook a) with
    | Err e => ([], Err e)
    | Ok vis =>
      match _build_text_tower tower_dim (a_text_cfg a) (a_quick_gelu a)
              (a_cast_dtype a) (a_use_sparo a) (a_L a) mv (a_reduce_depth a)
              (a_use_codebook a) with
      | Err e => ([BuiltVisual vis], Err e)
      | Ok txt =>
        ([BuiltVisual vis; BuiltText txt],
         Ok {| embed_dim := a_embed_dim a; use_sparo := a_use_sparo a;
               L := a_L a; V := a_V a; model_V := mv;
               sparo_type := a_sparo_type a; use_codebook := a_use_codebook a;
               bottleneck_dim := a_bottleneck_dim a;
               visual := vis; text := txt |})
      end
    end
  end.

(** Row-major regrouping of flat data into [k] rows of [n] values, as
    [view]/[reshape] lay it out. *)
Fixpoint chunks {A} (n k : nat) (x : list A) : list (list A) :=
  match k with
  | O => []
  | S k' => firstn n x :: chunks n k' (skipn n x)
  end.

(* ------------------------------------------------------------------ *)
(** ** Slot decomposition: [CLIP._project_for_sparo]

    Tensors of the last two dimensions [(L, model_V)] are lists of slot
    rows; the leading batch dimensions play no role and are dropped.
    Arithmetic is exact real arithmetic. *)

Module Sparo.
Local Open Scope R_scope.

Definition Rsum (l : list R) : R := fold_right Rplus 0 l.

(** [torch.norm(v)] (the L2 norm). *)
Definition l2norm (v : list R) : R := sqrt (Rsum (map (fun a => a * a) v)).

(** The [eps] of [F.normalize] (1e-12). *)
Definition eps : R := / (10 ^ 12).

(** [F.normalize(v)]: [v / max(||v||, eps)]. *)
Definition normalize (v : list R) : list R :=
  let d := Rmax (l2norm v) eps in map (fun a => a / d) v.

(** [F.softmax(v)]. *)
Definition softmax (v : list R) : list R :=
  let z := Rsum (map exp v) in map (fun a => exp a / z) v.

(** [x.view(L, V)] on a flat vector of [n] values: [L] consecutive rows of
    [V] values. As in torch, one of the two sizes may be [-1], and is then
    inferred from [n] when the other is positive and divides [n]; a size
    below [-1], two [-1]s or a count mismatch raise [RuntimeError], and a
    [None] size [TypeError]. *)
Definition view_slots (Lo Vo : option Z) (x : list R) : result (list (list R)) :=
  match Lo, Vo with
  | Some l, Some v =>
      let n := Z.of_nat (length x) in
      if Z.ltb l (-1) || Z.ltb v (-1) then Err RuntimeError
      else if Z.eqb l (-1) && Z.eqb v (-1) then Err RuntimeError
      else if Z.eqb l (-1) then
        if Z.ltb 0 v && Z.eqb (n mod v) 0
        then Ok (chunks (Z.to_nat v) (Z.to_nat (n / v)) x) else Err RuntimeError
      else if Z.eqb v (-1) then
        if Z.ltb 0 l && Z.eqb (n mod l) 0
        then Ok (chunks (Z.to_nat (n / l)) (Z.to_nat l) x) else Err RuntimeError
      else if Z.eqb n (l * v) then Ok (chunks (Z.to_nat v) (Z.to_nat l) x)
      else Err RuntimeError
  | _, _ => Err TypeError
  end.

(** [str.split(c)]. *)
Fixpoint split_on (c : Ascii.ascii) (s : string) : list string :=
  match s with
  | EmptyString => [""%string]
  | String a s' =>
      let parts := split_on c s' in
      if Ascii.eqb a c then ""%string :: parts
      else match parts with
           | p :: ps => String a p :: ps
           | [] => [String a ""]
           end
  end.

(** [rep_type, norm_type = self.sparo_type.split(":")]. *)
Definition parse_sparo_type (t : string) : result (string * string) :=
  match split_on ":"%char t with
  | [r; n] => Ok (r, n)
  | _ => Err ValueError
  end.

(** The first channel of every slot, [x[..., :1]], and the remaining
    channels, [x[..., 1:]]. *)
Definition first_channel (x : list (list R)) : list R := map (fun row => hd 0 row) x.
Definition drop_first_channel (x : list (list R)) : list (list R) := map (drop 1) x.

(** The weighting branch of [_project_for_sparo]: the per-slot scalar
    weights and the value rows that go on to the representation branch. *)
Definition sparo_weights (Lz : Z) (rep_type norm_type : string) (x : list (list R))
    : result (list R * list (list R)) :=
  if String.eqb norm_type "sqrtsoftmax" then
    Ok (map sqrt (softmax (first_channel x)), drop_first_channel x)
  else if String.eqb norm_type "softmax" then
    Ok (normalize (softmax (first_channel x)), drop_first_channel x)
  else if String.eqb norm_type "norm" then
    let norm_in : result (list (list R)) :=
      if String.eqb rep_type "cont" then Ok x
      else if String.eqb rep_type "sqrtsem" then Ok (map (map (fun a => exp (a / 2))) x)
      else Err NotImplementedError in
    match norm_in with
    | Err e => Err e
    | Ok ni =>
        let full_norm := l2norm (concat ni) in
        Ok (map (fun row => l2norm row / full_norm) ni, x)
    end
  else if String.eqb norm_type "const" then
    Ok (map (fun _ => sqrt (1 / IZR Lz)) x, x)
  else Err NotImplementedError.

(** The representation branch. *)
Definition sparo_rep (rep_type : string) (x : list (list R)) : result (list (list R)) :=
  if String.eqb rep_type "cont" then Ok (map normalize x)
  else if String.eqb rep_type "sqrtsem" then Ok (map (fun row => map sqrt (softmax row)) x)
  else if String.eqb rep_type "sem" then Ok (map (fun row => normalize (softmax row)) x)
  else Err NotImplementedError.

(** [out_rep * weights], the weights broadcast along each slot. *)
Definition scale_slots (out_rep : list (list R)) (weights : list R) : list (list R) :=
  zip_with (fun row w => map (fun a => a * w) row) out_rep weights.

(** [CLIP._project_for_sparo]. *)
Definition _project_for_sparo (self : CLIP) (x : list R) : result (list (list R)) :=
  x ← view_slots (L self) (model_V self) x;
  '(rep_type, norm_type) ← parse_sparo_type (sparo_type self);
  Lz ← (match L self with Some l => Ok l | None => Err TypeError end);
  '(weights, x) ← sparo_weights Lz rep_type norm_type x;
  out_rep ← sparo_rep rep_type x;
  Ok (scale_slots out_rep weights).

(** [self.sparo_type = t]. *)
Definition with_sparo_type (self : CLIP) (t : string) : CLIP := {|
  embed_dim := embed_dim self; use_sparo := use_sparo self; L := L self; V := V self;
  model_V := model_V self; sparo_type := t; use_codebook := use_codebook self;
  bottleneck_dim := bottleneck_dim self; visual := visual self; text := text self |}.

Definition is_ok {A} (r : result A) : bool :=
  match r with Ok _ => true | Err _ => false end.

End Sparo.

(** Monadic [map] in the error monad (a Python loop that stops at the
    first exception). *)
Section MapM.
Context {A B : Type} (f : A -> result B).
Fixpoint mapM_result (l : list A) : result (list B) :=
  match l with
  | [] => Ok []
  | x :: xs => y ← f x; ys ← mapM_result xs; Ok (y :: ys)
  end.
End MapM.

(* ------------------------------------------------------------------ *)
(** ** Tensors, modules and the precision converter *)

(** A tensor: its shape, dtype and row-major payload (bit patterns). *)
Record Tensor := {
  shape : list nat;
  tdtype : dtype;
  data : list Z
}.

Section Precision.

(** [src.to(dst)] on the payload when the dtype changes (external:
    the rounding done by the tensor runtime). *)
Variable cast_bits : dtype -> dtype -> list Z -> list Z.

(** [tensor.to(dtype)]: the tensor itself when the dtype already matches. *)
Definition tensor_to (t : Tensor) (dt : dtype) : Tensor :=
  if decide (tdtype t = dt) then t
  else {| shape := shape t; tdtype := dt; data := cast_bits (tdtype t) dt (data t) |}.


(** Layer kinds that [_convert_weights] distinguishes with [isinstance]. *)
Inductive mkind :=
| Conv1d | Conv2d | Linear
| MultiheadAttention | Attention
| CLIP_module | TextTransformer_module | VisionTransformer_module
| OtherModule.

(** An [nn.Module]: its kind, its tensor attributes (value [None] for an
    attribute set to [None]) and its named children. *)
Inductive nnModule :=
| mk_module (kind : mkind) (params : list (string * option Tensor))
            (children : list (string * nnModule)).

(** Induction over module trees, with a hypothesis for every child. *)
Fixpoint nnModule_ind_nested (P : nnModule -> Prop)
    (Hm : forall k ps cs, Forall (fun nc => P (snd nc)) cs -> P (mk_module k ps cs))
    (m : nnModule) : P m :=
  match m with
  | mk_module k ps cs =>
      Hm k ps cs
        ((fix go (cs : list (string * nnModule)) : Forall (fun nc => P (snd nc)) cs :=
            match cs with
            | [] => List.Forall_nil _
            | nc :: rest =>
                @List.Forall_cons _ _ nc rest (nnModule_ind_nested P Hm (snd nc)) (go rest)
            end) cs)
  end.

(** [getattr(l, name)]: [None] when the attribute does not exist. *)
Fixpoint getattr (ps : list (string * option Tensor)) (name : string)
    : option (option Tensor) :=
  match ps with
  | [] => None
  | (n, t) :: ps' => if String.eqb n name then Some t else getattr ps' name
  end.

(** [l.<name>.data = l.<name>.data.to(dtype)] on every attribute [name]. *)
Definition set_converted (dt : dtype) (name : string)
    (ps : list (string * option Tensor)) : list (string * option Tensor) :=
  map (fun '(n, t) =>
         if String.eqb n name then (n, (fun x => tensor_to x dt) <$> t) else (n, t)) ps.

(** Convert attribute [name] if it exists and is not [None]; a missing
    attribute raises [AttributeError] ([getattr(l, attr)]). *)
Definition convert_required (dt : dtype) (ps : list (string * option Tensor))
    (name : string) : result (list (string * option Tensor)) :=
  match getattr ps name with
  | None => Err AttributeError
  | Some _ => Ok (set_converted dt name ps)
  end.

(** Convert attribute [name] if present and not [None]
    ([getattr(l, name, None)]). *)
Definition convert_optional (dt : dtype) (ps : list (string * option Tensor))
    (name : string) : list (string * option Tensor) :=
  set_converted dt name ps.

Fixpoint convert_all_required (dt : dtype) (names : list string)
    (ps : list (string * option Tensor)) : result (list (string * option Tensor)) :=
  match names with
  | [] => Ok ps
  | n :: ns => ps' ← convert_required dt ps n; convert_all_required dt ns ps'
  end.

Definition attn_attrs : list string :=
  ["in_proj_weight"; "q_proj_weight"; "k_proj_weight"; "v_proj_weight";
   "in_proj_bias"; "bias_k"; "bias_v"]%string.

(** The inner [_convert_weights(l)] of [convert_weights_to_lp]. *)
Definition _convert_weights (dt : dtype) (k : mkind)
    (ps : list (string * option Tensor)) : result (list (string * option Tensor)) :=
  match k with
  | Conv1d | Conv2d | Linear =>
      match getattr ps "weight" with
      | Some (Some _) =>
          let ps := set_converted dt "weight" ps in
          match getattr ps "bias" with
          | None => Err AttributeError
          | Some _ => Ok (set_converted dt "bias" ps)
          end
      | _ => Err AttributeError
      end
  | MultiheadAttention | Attention => convert_all_required dt attn_attrs ps
  | CLIP_module | TextTransformer_module => Ok (convert_optional dt ps "text_projection")
  | VisionTransformer_module => Ok (convert_optional dt ps "proj")
  | OtherModule => Ok ps
  end.

(** [model.apply(_convert_weights)]: children first, then the module. *)
Fixpoint convert_weights_to_lp (dt : dtype) (m : nnModule) : result nnModule :=
  match m with
  | mk_module k ps cs =>
      cs' ← mapM_result (fun '(n, c) => c' ← convert_weights_to_lp dt c; Ok (n, c')) cs;
      ps' ← _convert_weights dt k ps;
      Ok (mk_module k ps' cs')
  end.

End Precision.

(* ------------------------------------------------------------------ *)
(** ** Checkpoint compatibility: [convert_to_custom_text_state_dict] *)

(** A Python [dict] with its insertion order: an association list. *)
Definition odict := list (string * Tensor).

(** [d.get(k)] and [k in d]. *)
Fixpoint odict_get (d : odict) (k : string) : option Tensor :=
  match d with
  | [] => None
  | (k', v) :: d' => if String.eqb k' k then Some v else odict_get d' k
  end.

Definition odict_mem (d : odict) (k : string) : bool :=
  existsb (fun '(k', _) => String.eqb k' k) d.

(** [d[k] = v]: an existing key keeps its place, a new key goes last. *)
Fixpoint odict_set (d : odict) (k : string) (v : Tensor) : odict :=
  match d with
  | [] => [(k, v)]
  | (k', v') :: d' => if String.eqb k' k then (k', v) :: d' else (k', v') :: odict_set d' k v
  end.

Definition text_tower_prefixes : list string :=
  ["text_projection"; "positional_embedding"; "token_embedding"; "transformer"; "ln_final"]%string.

(** The key a legacy entry gets: ['text.' + k] for the text-tower keys. *)
Definition custom_text_key (k : string) : string :=
  if existsb (fun p => String.prefix p k) text_tower_prefixes then String.append "text." k
  else k.

(** [convert_to_custom_text_state_dict(state_dict)]. *)
Definition convert_to_custom_text_state_dict (state_dict : odict) : odict :=
  if odict_mem state_dict "text_projection" then
    fold_left (fun new_state_dict '(k, v) => odict_set new_state_dict (custom_text_key k) v)
      state_dict []
  else state_dict.

(* ------------------------------------------------------------------ *)
(** ** Legacy-checkpoint adapter: [build_model_from_openai_state_dict] *)

Definition StateDict := gmap string Tensor.

(** [state_dict[k].shape]. *)
Definition shape_of (d : gmap string Tensor) (k : string) : result (list nat) :=
  match d !! k with Some t => Ok (shape t) | None => Err KeyError end.

(** [shape[0]] and [shape[-1]]. *)
Definition dim0 (sh : list nat) : result nat :=
  match sh with n :: _ => Ok n | [] => Err IndexError end.
Definition dimlast (sh : list nat) : result nat :=
  match last sh with Some n => Ok n | None => Err IndexError end.

(** [round((n - 1) ** 0.5)]: for [n = 0] the power is complex and [round]
    raises [TypeError]; otherwise the nearest integer to the square root
    (never a tie for an integer radicand). *)
Definition round_sqrt_pred (n : nat) : result nat :=
  match n with
  | O => Err TypeError
  | S m => let s := Nat.sqrt m in
           Ok (if Nat.ltb s (m - s * s) then S s else s)
  end.

Definition keys (d : gmap string Tensor) : list string := elements (dom d).

(** [k.split(".")[2]]. *)
Definition third_component (k : string) : result string :=
  match Sparo.split_on "."%char k with
  | _ :: _ :: c :: _ => Ok c
  | _ => Err IndexError
  end.

(** [len(set(k.split(".")[2] for k in state_dict if k.startswith(p)))]. *)
Definition count_blocks (d : gmap string Tensor) (p : string) : result nat :=
  cs ← mapM_result third_component (filter (fun k => String.prefix p k = true) (keys d));
  Ok (size (list_to_set cs : gset string)).

Definition is_vit_attn_key (k : string) : bool :=
  String.prefix "visual." k && endswith k ".attn.in_proj_weight".

(** Lines 616-633: the vision configuration read off the legacy dict. *)
Definition openai_vision_cfg (d : gmap string Tensor) : result CLIPVisionCfg :=
  let vit := bool_decide (is_Some (d !! "visual.proj")) in
  if vit then
    conv1 ← shape_of d "visual.conv1.weight";
    vision_width ← dim0 conv1;
    let vision_layers := length (filter (fun k => is_vit_attn_key k = true) (keys d)) in
    vision_patch_size ← dimlast conv1;
    pos ← shape_of d "visual.positional_embedding";
    npos ← dim0 pos;
    grid_size ← round_sqrt_pred npos;
    let image_size := (vision_patch_size * grid_size)%nat in
    Ok {| vc_layers := LayersInt (Z.of_nat vision_layers);
          vc_width := Z.of_nat vision_width; vc_head_width := 64;
          vc_patch_size := Some (Z.of_nat vision_patch_size);
          vc_image_size := Z.of_nat image_size; vc_timm_model_name := None |}
  else
    c1 ← count_blocks d "visual.layer1"; c2 ← count_blocks d "visual.layer2";
    c3 ← count_blocks d "visual.layer3"; c4 ← count_blocks d "visual.layer4";
    l1 ← shape_of d "visual.layer1.0.conv1.weight";
    vision_width ← dim0 l1;
    ap ← shape_of d "visual.attnpool.positional_embedding";
    nap ← dim0 ap;
    output_width ← round_sqrt_pred nap;
    _ ← assert_ (Nat.eqb (output_width * output_width + 1) nap);
    Ok {| vc_layers := LayersTuple (Z.of_nat c1) (Z.of_nat c2) (Z.of_nat c3) (Z.of_nat c4);
          vc_width := Z.of_nat vision_width; vc_head_width := 64;
          vc_patch_size := None;
          vc_image_size := Z.of_nat (output_width * 32); vc_timm_model_name := None |}.

(** Lines 635-654: [embed_dim] and the text configuration. *)
Definition openai_text_cfg (d : gmap string Tensor) : result (Z * CLIPTextCfg) :=
  tp ← shape_of d "text_projection";
  embed_dim ← (match tp with _ :: e :: _ => Ok e | _ => Err IndexError end);
  pe ← shape_of d "positional_embedding"; context_length ← dim0 pe;
  te ← shape_of d "token_embedding.weight"; vocab_size ← dim0 te;
  lf ← shape_of d "ln_final.weight"; transformer_width ← dim0 lf;
  let transformer_heads := Z.div (Z.of_nat transformer_width) 64 in
  transformer_layers ← count_blocks d "transformer.resblocks";
  Ok (Z.of_nat embed_dim,
      {| tc_context_length := Z.of_nat context_length;
         tc_vocab_size := Z.of_nat vocab_size;
         tc_width := Z.of_nat transformer_width; tc_heads := transformer_heads;
         tc_layers := Z.of_nat transformer_layers; tc_hf_model_name := None |}).

(** The three keys popped before loading (line 663). *)
Definition openai_unused_keys : list string :=
  ["input_resolution"; "context_length"; "vocab_size"]%string.

(** [for key in [...]: state_dict.pop(key, None)]. *)
Definition pop_unused_keys (d : gmap string Tensor) : gmap string Tensor :=
  fold_left (fun d k => delete k d) openai_unused_keys d.

(** The state-dict keys of a module tree ([module.state_dict()]). *)
Fixpoint module_tensors (prefix : string) (m : nnModule) : list (string * Tensor) :=
  match m with
  | mk_module _ ps cs =>
      omap (fun '(n, t) => (fun x => (String.append prefix n, x)) <$> t) ps ++
      (fix go (cs : list (string * nnModule)) : list (string * Tensor) :=
         match cs with
         | [] => []
         | (n, c) :: rest =>
             module_tensors (String.append prefix (String.append n ".")) c ++ go rest
         end) cs
  end.

Section Loading.

Variable cast_bits : dtype -> dtype -> list Z -> list Z.

(** [param.copy_(state_dict[key])] for every tensor of the tree. *)
Fixpoint load_into (d : gmap string Tensor) (prefix : string) (m : nnModule) : nnModule :=
  match m with
  | mk_module k ps cs =>
      mk_module k
        (map (fun '(n, t) =>
                (n, (fun p => match d !! String.append prefix n with
                              | Some v => tensor_to cast_bits v (tdtype p)
                              | None => p
                              end) <$> t)) ps)
        ((fix go (cs : list (string * nnModule)) : list (string * nnModule) :=
            match cs with
            | [] => []
            | (n, c) :: rest =>
                (n, load_into d (String.append prefix (String.append n ".")) c) :: go rest
            end) cs)
  end.

(** [model.load_state_dict(state_dict)] with [strict=True]: missing or
    unexpected keys, or a shape mismatch, raise [RuntimeError]. *)
Definition load_state_dict (m : nnModule) (d : gmap string Tensor) : result nnModule :=
  let ts := module_tensors "" m in
  if bool_decide ((list_to_set (map fst ts) : gset string) = dom d)
     && forallb (fun '(k, t) => match d !! k with
                                | Some v => bool_decide (shape v = shape t)
                                | None => false
                                end) ts
  then Ok (load_into d "" m)
  else Err RuntimeError.

Record LoadedModel := {
  lm_clip : CLIP;
  lm_module : nnModule;
  lm_training : bool
}.

(** The module tree of a freshly constructed [CLIP] (built by the external
    tower constructors). *)
Variable init_modules : CLIP -> nnModule.

(** [build_model_from_openai_state_dict]: the caller's dict after the
    in-place [pop]s, and the outcome. *)
Definition build_model_from_openai_state_dict (state_dict : gmap string Tensor)
    (quick_gelu : bool) (cast_dtype : option dtype)
    : gmap string Tensor * result LoadedModel :=
  match vision_cfg ← openai_vision_cfg state_dict;
        et ← openai_text_cfg state_dict;
        Ok (vision_cfg, et) with
  | Err e => (state_dict, Err e)
  | Ok (vision_cfg, (embed_dim, text_cfg)) =>
    let args := {| a_embed_dim := embed_dim; a_vision_cfg := vision_cfg;
                   a_text_cfg := text_cfg; a_quick_gelu := quick_gelu;
                   a_cast_dtype := cast_dtype; a_use_sparo := false;
                   a_L := None; a_V := None; a_reduce_depth := 0;
                   a_sparo_type := "cont:const"; a_use_codebook := false;
                   a_bottleneck_dim := None |} in
    match snd (CLIP_init args) with
    | Err e => (state_dict, Err e)
    | Ok clip =>
        let state_dict := pop_unused_keys state_dict in
        (state_dict,
         m ← convert_weights_to_lp cast_bits float16 (init_modules clip);
         m ← load_state_dict m state_dict;
         Ok {| lm_clip := clip; lm_module := m; lm_training := false |})
    end
  end.

End Loading.

(* ------------------------------------------------------------------ *)
(** ** Position-embedding resizer: [resize_pos_embed] *)

Section Resize.

(** The numeric part of [F.interpolate] on a channels-last image: given
    the mode, the antialias flag, the channel count, the old and new grid
    sizes and the pixels (each a vector of channels) it returns the resized
    pixels. It is an external collaborator; its argument checks are
    [interpolate_checks]. *)
Variable interpolate :
  string -> bool -> nat -> nat * nat -> nat * nat -> list (list Z) -> list (list Z).

(** The argument checks of [F.interpolate] on a 4-D input with [size]
    given and [align_corners=False], in the order torch makes them:
    ["nearest"], ["area"] and ["nearest-exact"] refuse [align_corners]
    ([ValueError]); anti-aliasing is restricted to bilinear and bicubic
    ([ValueError]); of the remaining modes only ["bilinear"] and
    ["bicubic"] accept a 4-D input ([NotImplementedError]). *)
Definition interpolate_checks (mode : string) (antialias : bool) : result unit :=
  if String.eqb mode "nearest" || String.eqb mode "area" || String.eqb mode "nearest-exact"
  then Err ValueError
  else if antialias && negb (String.eqb mode "bilinear" || String.eqb mode "bicubic")
  then Err ValueError
  else if String.eqb mode "bilinear" || String.eqb mode "bicubic" then Ok tt
  else Err NotImplementedError.

(** [resize_pos_embed(state_dict, model, interpolation, antialias)], where
    [grid] is [to_2tuple(model.visual.grid_size)], or [None] when the
    tower has no [grid_size]. The table has shape [rows :: rest]; legacy
    tables are 2-D ([rows x width]). [reshape(1, g, g, -1)] needs [g * g > 0]
    dividing the element count; the upsampling kernels refuse an empty
    channel dimension or an empty output grid; [torch.cat] needs the class
    row and the resized rows to be 2-D of the same width. *)
Definition resize_pos_embed (state_dict : gmap string Tensor) (grid : option (nat * nat))
    (interpolation : string) (antialias : bool) : result (gmap string Tensor) :=
  match state_dict !! "visual.positional_embedding", grid with
  | None, _ | _, None => Ok state_dict
  | Some old_pos_embed, Some (g0, g1) =>
    let extra_tokens := 1%nat in
    let new_seq_len := (g0 * g1 + extra_tokens)%nat in
    match shape old_pos_embed with
    | [] => Err IndexError (* shape[0] of a 0-dim tensor *)
    | rows :: rest =>
      if Nat.eqb new_seq_len rows then Ok state_dict else
      let row_numel := fold_right Nat.mul 1%nat rest in
      (* pos_emb_tok = old[:1], pos_emb_img = old[1:] *)
      let tok_rows := Nat.min rows extra_tokens in
      let pos_emb_tok := firstn (tok_rows * row_numel) (data old_pos_embed) in
      let img_rows := (rows - extra_tokens)%nat in
      let pos_emb_img := skipn (tok_rows * row_numel) (data old_pos_embed) in
      let old_grid := Nat.sqrt img_rows in
      (* reshape(1, old_grid, old_grid, -1) *)
      let numel := (img_rows * row_numel)%nat in
      let cells := (old_grid * old_grid)%nat in
      if Nat.eqb cells 0 then Err RuntimeError
      else if negb (Nat.eqb (numel mod cells) 0) then Err RuntimeError
      else
        let channels := (numel / cells)%nat in
        (* F.interpolate(..., size=grid_size, mode=interpolation,
           antialias=antialias, align_corners=False) *)
        _ ← interpolate_checks interpolation antialias;
        if Nat.eqb channels 0 || Nat.eqb (g0 * g1) 0 then Err RuntimeError else
        let pixels := chunks channels cells pos_emb_img in
        let resized := interpolate interpolation antialias channels
                         (old_grid, old_grid) (g0, g1) pixels in
        (* reshape(1, g0 * g1, -1)[0], then
           torch.cat([pos_emb_tok, pos_emb_img], dim=0) *)
        match rest with
        | [width] =>
          if negb (Nat.eqb channels width) then Err RuntimeError
          else
            let new_pos_embed :=
              {| shape := [(tok_rows + g0 * g1)%nat; width];
                 tdtype := tdtype old_pos_embed;
                 data := pos_emb_tok ++ concat resized |} in
            Ok (<["visual.positional_embedding" := new_pos_embed]> state_dict)
        | _ => Err RuntimeError
        end
    end
  end.

End Resize.

(** The row [i] of a 2-D table. *)
Definition table_row (t : Tensor) (i : nat) : list Z :=
  match shape t with
  | [_; width] => firstn width (skipn (i * width) (data t))
  | _ => []
  end.

(** A well-formed 2-D table of [rows x width] entries. *)
Definition is_table (t : Tensor) (rows width : nat) : Prop :=
  shape t = [rows; width] /\ length (data t) = (rows * width)%nat.

(* ------------------------------------------------------------------ *)
(** ** [CLIP.encode_image] and [CLIP.encode_text] *)

(** What a vision tower returns: a feature vector, or in SPARO mode the
    pair [(out, attn)]. *)
Inductive TowerOut :=
| Plain (v : list R)
| WithAttn (v : list R) (attn : list R).

(** The results of the encoders. *)
Inductive Encoded :=
| Features (v : list R)
| SparoOut (slots : list (list R))
| SparoOutAttn (slots : list (list R)) (attn : list R).

(** [out, attn = features]. *)
Definition unpack_pair (f : TowerOut) : result (list R * list R) :=
  match f with WithAttn v a => Ok (v, a) | Plain _ => Err ValueError end.

(** The SPARO tail shared by both encoders. *)
Definition sparo_tail (self : CLIP) (out attn : list R) (return_sparo return_attn : bool)
    : result Encoded :=
  out ← Sparo._project_for_sparo self out;
  if return_sparo then
    if return_attn then Ok (SparoOutAttn out attn) else Ok (SparoOut out)
  else Ok (Features (concat out)).

Section Encoders.

(** External layers: the vision tower, the codebook query models, the
    bottleneck projections, the text trunk (token embedding, positional
    embedding and transformer) over activations of type [H], the text
    pooling layers and projection, and the SPARO text head. *)
Variable visual_forward : list R -> TowerOut.
Variable img_query_model : list R -> list R.
Variable vision_bottleproj text_bottleproj : list R -> list R.
Variable H : Type.
Variable text_trunk : list Z -> H.
Variable text_attn_pool : option (H -> nat -> H).
Variable text_global_average_pool : bool.
Variable ln_final : H -> H.
Variable mean_tokens : H -> list R.
Variable first_token select_token : H -> nat -> list R.
Variable text_projection : list R -> list R.
Variable txt_query_codebook : H -> nat -> list R.
Variable text_sparo : H -> nat -> list R * list R.

(** [text.argmax(dim=-1)]: the first position of the largest token id. *)
Fixpoint argmax_from (best_i : nat) (best : Z) (i : nat) (l : list Z) : nat :=
  match l with
  | [] => best_i
  | x :: xs => if Z.ltb best x then argmax_from i x (S i) xs
               else argmax_from best_i best (S i) xs
  end.
Definition argmax (l : list Z) : nat :=
  match l with [] => O | x :: xs => argmax_from O x 1 xs end.

Definition encode_image (self : CLIP) (image : list R)
    (normalize return_sparo return_attn : bool) : result Encoded :=
  let features := visual_forward image in
  if negb (use_sparo self) then
    f ← (match features with Plain v => Ok v | WithAttn _ _ => Err TypeError end);
    let f := if use_codebook self then img_query_model f else f in
    let f := match bottleneck_dim self with Some _ => vision_bottleproj f | None => f end in
    Ok (Features (if normalize then Sparo.normalize f else f))
  else
    _ ← assert_ normalize;
    '(out, attn) ← unpack_pair features;
    sparo_tail self out attn return_sparo return_attn.

Definition encode_text (self : CLIP) (text : list Z)
    (normalize return_sparo return_attn : bool) : result Encoded :=
  let eot := argmax text in
  let x := text_trunk text in
  let x := if negb (use_codebook self) then
             let x := match text_attn_pool with Some p => p x eot | None => x end in
             ln_final x
           else x in
  if negb (use_sparo self) then
    v ← (if negb (use_codebook self) then
           v ← (match text_attn_pool with
                | Some _ => Ok (if text_global_average_pool then mean_tokens x
                                else first_token x 0)
                | None => if text_global_average_pool then Err NotImplementedError
                          else Ok (select_token x eot)
                end);
           Ok (text_projection v)
         else Ok (txt_query_codebook x eot));
    let v := match bottleneck_dim self with Some _ => text_bottleproj v | None => v end in
    Ok (Features (if normalize then Sparo.normalize v else v))
  else
    _ ← assert_ normalize;
    let '(out, attn) := text_sparo x eot in
    sparo_tail self out attn return_sparo return_attn.

End Encoders.

(** [F.normalize(features, dim=-1)] applied to an encoder's feature vector;
    other results (SPARO slots, exceptions) are left as they are. *)
Definition normalize_encoded (r : result Encoded) : result Encoded :=
  match r with
  | Ok (Features v) => Ok (Features (Sparo.normalize v))
  | _ => r
  end.

(* ------------------------------------------------------------------ *)
(** ** Sample inputs *)

Definition shape_only (sh : list nat) : Tensor := {| shape := sh; tdtype := float16; data := [] |}.

Definition block_ids : list string :=
  ["0"; "1"; "2"; "3"; "4"; "5"; "6"; "7"; "8"; "9"; "10"; "11"]%string.

(** A legacy ViT-B/16 export, by shapes: vision width 768, 12 blocks,
    patch 16, a 14 x 14 grid plus the class token; text width 512 with 12
    blocks; and the three scalar metadata entries. *)
Definition sample_openai_dict : gmap string Tensor :=
  list_to_map (
    [("visual.proj", shape_only [768; 512]%nat);
     ("visual.conv1.weight", shape_only [768; 3; 16; 16]%nat);
     ("visual.positional_embedding", shape_only [197; 768]%nat);
     ("text_projection", shape_only [512; 512]%nat);
     ("positional_embedding", shape_only [77; 512]%nat);
     ("token_embedding.weight", shape_only [49408; 512]%nat);
     ("ln_final.weight", shape_only [512]%nat);
     ("input_resolution", shape_only []);
     ("context_length", shape_only []);
     ("vocab_size", shape_only [])]%string ++
    map (fun i => (String.append "visual.transformer.resblocks."
                     (String.append i ".attn.in_proj_weight"), shape_only [2304; 768]%nat))
        block_ids ++
    map (fun i => (String.append "transformer.resblocks."
                     (String.append i ".attn.in_proj_weight"), shape_only [1536; 512]%nat))
        block_ids).

(** A legacy ModifiedResNet (RN50) vision export, by shapes: blocks
    [(3, 4, 6, 3)], stem width 64 and an attention-pool table of
    [7 * 7 + 1] rows. *)
Definition resnet_block_keys (b : string) (n : nat) : list (string * Tensor) :=
  map (fun i => (String.append "visual.layer" (String.append b (String.append "."
                   (String.append i ".conv1.weight"))), shape_only [64; 64; 1; 1]%nat))
      (firstn n block_ids).

Definition sample_resnet_dict : gmap string Tensor :=
  list_to_map (
    resnet_block_keys "1" 3 ++ resnet_block_keys "2" 4 ++
    resnet_block_keys "3" 6 ++ resnet_block_keys "4" 3 ++
    [("visual.attnpool.positional_embedding", shape_only [50; 2048]%nat)]%string).

(** A numeric resampler standing in for the kernel of [F.interpolate]
    (nearest-neighbour on the row-major [o0 x o1] pixels, whatever the
    mode): the output pixel [(i, j)] of the [n0 x n1] image is the input
    pixel [(floor (i * o0 / n0), floor (j * o1 / n1))]. *)
Definition nearest_interpolate (mode : string) (antialias : bool) (ch : nat)
    (old_grid new_grid : nat * nat) (pixels : list (list Z)) : list (list Z) :=
  let '(o0, o1) := old_grid in
  let '(n0, n1) := new_grid in
  flat_map (fun i =>
    map (fun j => nth ((i * o0 / n0) * o1 + j * o1 / n1)%nat pixels (repeat 0 ch))
        (seq 0 n1))
    (seq 0 n0).

(** A position table whose two non-class rows do not form a square grid. *)
Definition odd_pos_dict : gmap string Tensor :=
  {[ "visual.positional_embedding"%string :=
       {| shape := [3; 1]%nat; tdtype := float32; data := [5; 6; 7] |} ]}.

(** A 2 x 2 grid of width-2 embeddings after the class row. *)
Definition small_pos_table : Tensor :=
  {| shape := [5; 2]%nat; tdtype := float32; data := [1; 2; 3; 4; 5; 6; 7; 8; 9; 10] |}.

Definition small_pos_dict : gmap string Tensor :=
  {[ "visual.positional_embedding"%string := small_pos_table ]}.

(** The per-slot normalization of a representation mode as the
    documentation describes it: [cont] rescales each slot to unit L2 norm,
    [sem] softmaxes each slot and then rescales it to unit L2 norm. *)
Definition slot_normalization (rep : string) (s : list R) : list R :=
  if String.eqb rep "sem" then Sparo.normalize (Sparo.softmax s) else Sparo.normalize s.

(** Sample models and vectors. *)
Definition sample_args (sparo codebook : bool) : CLIPArgs := {|
  a_embed_dim := 512; a_vision_cfg := default_vision_cfg; a_text_cfg := default_text_cfg;
  a_quick_gelu := false; a_cast_dtype := None; a_use_sparo := sparo;
  a_L := Some 4; a_V := Some 8; a_reduce_depth := 0; a_sparo_type := "cont:const";
  a_use_codebook := codebook; a_bottleneck_dim := None |}.

(** A SPARO configuration of [L] slots of [V] values and tag [st]. *)
Definition sample_sparo_args (l v : Z) (st : string) : CLIPArgs := {|
  a_embed_dim := 512; a_vision_cfg := default_vision_cfg; a_text_cfg := default_text_cfg;
  a_quick_gelu := false; a_cast_dtype := None; a_use_sparo := true;
  a_L := Some l; a_V := Some v; a_reduce_depth := 0; a_sparo_type := st;
  a_use_codebook := false; a_bottleneck_dim := None |}.

Definition sample_clip (st : string) : CLIP := {|
  embed_dim := 512; use_sparo := true; L := Some 2; V := Some 2; model_V := Some 2;
  sparo_type := st; use_codebook := false; bottleneck_dim := None;
  visual := SPAROVisionTransformer 224 (Some 16) 768 12 12 512 GELU LayerNorm (Some 2) (Some 2);
  text := SPAROTextTransformer 77 49408 512 8 12 512 GELU LayerNorm (Some 2) (Some 2) |}.

(** A SPARO request on the RN50 residual vision configuration. *)
Definition rn50_vision_cfg : CLIPVisionCfg := {|
  vc_layers := LayersTuple 3 4 6 3; vc_width := 64; vc_head_width := 64;
  vc_patch_size := None; vc_image_size := 224; vc_timm_model_name := None |}.

Definition rn50_sparo_args : CLIPArgs := {|
  a_embed_dim := 1024; a_vision_cfg := rn50_vision_cfg; a_text_cfg := default_text_cfg;
  a_quick_gelu := true; a_cast_dtype := None; a_use_sparo := true;
  a_L := Some 4; a_V := Some 8; a_reduce_depth := 0; a_sparo_type := "cont:const";
  a_use_codebook := false; a_bottleneck_dim := None |}.

(** A small module tree: a scalar parameter and a bias-free linear child,
    in half precision, and a single-precision state dict for it. *)
Definition sample_module : nnModule :=
  mk_module OtherModule
    [("logit_scale", Some {| shape := []; tdtype := float16; data := [0] |})]%string
    [("proj", mk_module Linear
                [("weight", Some {| shape := [2; 2]%nat; tdtype := float16; data := [0; 0; 0; 0] |});
                 ("bias", None)]%string [])]%string.

Definition sample_module_dict : gmap string Tensor :=
  list_to_map
    [("logit_scale", {| shape := []; tdtype := float32; data := [5] |});
     ("proj.weight", {| shape := [2; 2]%nat; tdtype := float32; data := [1; 2; 3; 4] |})]%string.

(** A payload cast that keeps the bit patterns. *)
Definition keep_bits (src dst : dtype) (x : list Z) : list Z := x.

(** A flat module holding one parameter per entry of a dict. *)
Definition flat_module (d : gmap string Tensor) : nnModule :=
  mk_module OtherModule (map (fun kt => (fst kt, Some (snd kt))) (map_to_list d)) [].

(** A plain (non-SPARO, no codebook, no bottleneck) model. *)
Definition sample_plain_clip : CLIP := {|
  embed_dim := 512; use_sparo := false; L := None; V := None; model_V := None;
  sparo_type := "cont:const"; use_codebook := false; bottleneck_dim := None;
  visual := VisionTransformer 224 (Some 16) 768 12 12 512 GELU LayerNorm false;
  text := TextTransformer 77 49408 512 8 12 512 GELU LayerNorm false |}.

Definition ident_vec (v : list R) : list R := v.

(** Attribute lists of which the entries named in [N] are converted. *)
Section ConvertNames.
Variable cast_bits : dtype -> dtype -> list Z -> list Z.
Variable dt : dtype.

Definition convert_names (N : list string) (ps : list (string * option Tensor))
    : list (string * option Tensor) :=
  map (fun '(n, t) =>
         if existsb (String.eqb n) N then (n, (fun x => tensor_to cast_bits x dt) <$> t)
         else (n, t)) ps.

End ConvertNames.

(** Whether an attribute exists. *)
Definition has_attr (ps : list (string * option Tensor)) (n : string) : bool :=
  match getattr ps n with Some _ => true | None => false end.

(** A legacy dict in insertion order: text-tower entries mixed with
    vision and scalar entries. *)
Definition legacy_text_odict : odict :=
  [("text_projection", shape_only [512; 512]%nat);
   ("visual.proj", shape_only [768; 512]%nat);
   ("transformer.resblocks.0.attn.in_proj_weight", shape_only [1536; 512]%nat);
   ("ln_final.weight", shape_only [512]%nat);
   ("logit_scale", shape_only [])]%string.

(* ================================================================== *)
(** * Properties *)

Example split_sem_norm : Sparo.parse_sparo_type "sem:norm" = Ok ("sem", "norm")%string.
Proof. reflexivity. Qed.

Example endswith_sqrtsoftmax : endswith "cont:sqrtsoftmax" "softmax" = true.
Proof. reflexivity. Qed.

(** ** Model construction *)

(** C3: requesting both SPARO and the codebook makes [CLIP.__init__]
    raise [ValueError] before either tower is built: no tower is built and
    no model is returned. *)
Theorem CLIP_init_sparo_codebook_exclusive (a : CLIPArgs) :
  a_use_sparo a = true -> a_use_codebook a = true ->
  CLIP_init a = ([], Err ValueError).
Proof. intros Hs Hc. unfold CLIP_init. rewrite Hs, Hc. reflexivity. Qed.

Lemma CLIP_init_sparo_codebook_exclusive_witness :
  a_use_sparo (sample_args true true) = true /\ a_use_codebook (sample_args true true) = true /\
  CLIP_init (sample_args true true) = ([], Err ValueError).
Proof.
  split; [reflexivity|]. split; [reflexivity|].
  apply CLIP_init_sparo_codebook_exclusive; reflexivity.
Defined.

(** With one of the two modes only, both towers are built. *)
Example CLIP_init_sparo_only :
  fst (CLIP_init (sample_args true false)) =
  [BuiltVisual (SPAROVisionTransformer 224 (Some 16) 768 12 12 512 GELU LayerNorm (Some 4) (Some 8));
   BuiltText (SPAROTextTransformer 77 49408 512 8 12 512 GELU LayerNorm (Some 4) (Some 8))].
Proof. reflexivity. Qed.

(** C2 (counterexample): a transformer-path vision config of width 100
    with head width 64 is not rejected; the tower is built with the
    rounded-down head count [100 // 64 = 1]. *)
Lemma build_vision_tower_rounds_heads :
  Z.rem 100 64 <> 0 /\
  _build_vision_tower 512
    {| vc_layers := LayersInt 12; vc_width := 100; vc_head_width := 64;
       vc_patch_size := Some 16; vc_image_size := 224; vc_timm_model_name := None |}
    false None false None None 0 false
  = Ok (VisionTransformer 224 (Some 16) 100 12 1 512 GELU LayerNorm false).
Proof. split; [discriminate | reflexivity]. Qed.

(** C2 (amended): [_build_vision_tower] performs no divisibility check.
    Whenever [head_width] is nonzero (and the residual path is not asked
    for SPARO), it builds the tower with the floor quotient as head count:
    [width * 32 // head_width] on the residual path, [width // head_width]
    on the transformer path. *)
Theorem build_vision_tower_heads_floor (embed_dim : Z) (cfg : CLIPVisionCfg)
    (quick_gelu : bool) (cast_dtype : option dtype) (use_sparo : bool)
    (Lo Vo : option Z) (reduce_depth : Z) (use_codebook : bool) :
  str_truthy (vc_timm_model_name cfg) = false ->
  vc_head_width cfg <> 0 ->
  match vc_layers cfg with
  | LayersTuple _ _ _ _ =>
      use_sparo = false ->
      exists t, _build_vision_tower embed_dim cfg quick_gelu cast_dtype use_sparo
                  Lo Vo reduce_depth use_codebook = Ok t /\
                visual_heads t = Some (vc_width cfg * 32 / vc_head_width cfg)
  | LayersInt _ =>
      exists t, _build_vision_tower embed_dim cfg quick_gelu cast_dtype use_sparo
                  Lo Vo reduce_depth use_codebook = Ok t /\
                visual_heads t = Some (vc_width cfg / vc_head_width cfg)
  end.
Proof.
  intros Htimm Hhw. unfold _build_vision_tower, floordiv. rewrite Htimm.
  apply Z.eqb_neq in Hhw.
  destruct (vc_layers cfg) as [n | a b c d].
  - rewrite Hhw. destruct use_sparo; eexists; split; reflexivity.
  - intros Hs. subst use_sparo. cbn. rewrite Hhw. eexists; split; reflexivity.
Qed.

Lemma build_vision_tower_heads_floor_witness :
  str_truthy (vc_timm_model_name default_vision_cfg) = false /\
  vc_head_width default_vision_cfg <> 0 /\
  exists t, _build_vision_tower 512 default_vision_cfg false None false None None 0 false
              = Ok t /\ visual_heads t = Some (768 / 64).
Proof.
  split; [reflexivity|]. split; [discriminate|].
  exact (build_vision_tower_heads_floor 512 default_vision_cfg false None false None None 0
           false eq_refl ltac:(discriminate)).
Defined.

(** ** Encoders *)

(** C9: in SPARO mode [encode_image] and [encode_text] with
    [normalize=False] fail the [assert normalize] precondition, whatever
    [return_sparo] and [return_attn] are, for any tower behaviour. *)
Theorem encode_sparo_requires_normalize
    (visual_forward : list R -> TowerOut) (img_query_model vision_bottleproj : list R -> list R)
    (text_bottleproj : list R -> list R) (H : Type) (text_trunk : list Z -> H)
    (text_attn_pool : option (H -> nat -> H)) (text_global_average_pool : bool)
    (ln_final : H -> H) (mean_tokens : H -> list R) (first_token select_token : H -> nat -> list R)
    (text_projection : list R -> list R) (txt_query_codebook : H -> nat -> list R)
    (text_sparo : H -> nat -> list R * list R)
    (self : CLIP) (image : list R) (tokens : list Z) (return_sparo return_attn : bool) :
  use_sparo self = true ->
  encode_image visual_forward img_query_model vision_bottleproj self image false
    return_sparo return_attn = Err AssertionError /\
  encode_text text_bottleproj H text_trunk text_attn_pool text_global_average_pool ln_final
    mean_tokens first_token select_token text_projection txt_query_codebook text_sparo
    self tokens false return_sparo return_attn = Err AssertionError.
Proof.
  intros Hs. unfold encode_image, encode_text. rewrite Hs. split; reflexivity.
Qed.



Lemma encode_sparo_requires_normalize_witness :
  use_sparo (sample_clip "cont:const") = true /\
  encode_image (fun _ => WithAttn [] []) ident_vec ident_vec (sample_clip "cont:const") []
    false true true = Err AssertionError /\
  encode_text ident_vec unit (fun _ => tt) None false (fun h => h) (fun _ => []) (fun _ _ => [])
    (fun _ _ => []) ident_vec (fun _ _ => []) (fun _ _ => ([], [])) (sample_clip "cont:const")
    [1; 2] false true true = Err AssertionError.
Proof.
  split; [reflexivity|].
  apply (encode_sparo_requires_normalize (fun _ => WithAttn [] []) ident_vec ident_vec ident_vec
           unit (fun _ => tt) None false (fun h => h) (fun _ => []) (fun _ _ => [])
           (fun _ _ => []) ident_vec (fun _ _ => []) (fun _ _ => ([], []))
           (sample_clip "cont:const") [] [1; 2] true true).
  reflexivity.
Defined.

(** ** Slot decomposition *)

Lemma view_slots_ok (Lo Vo : option Z) (l v : Z) (x : list R) :
  Lo = Some l -> Vo = Some v -> 0 <= l -> 0 <= v -> Z.of_nat (length x) = l * v ->
  Sparo.view_slots Lo Vo x = Ok (chunks (Z.to_nat v) (Z.to_nat l) x).
Proof.
  intros -> -> Hl Hv Hlen. unfold Sparo.view_slots. cbv zeta.
  rewrite (proj2 (Z.ltb_ge l (-1))), (proj2 (Z.ltb_ge v (-1))) by lia.
  rewrite (proj2 (Z.eqb_neq l (-1))), (proj2 (Z.eqb_neq v (-1))) by lia.
  cbn [orb andb]. rewrite Hlen, Z.eqb_refl. reflexivity.
Qed.

(** C10: the tag ["sem:norm"] raises [NotImplementedError] on every input
    of the shape the towers produce, while ["sem"] with the other
    weightings and ["norm"] with ["cont"] and ["sqrtsem"] succeed. *)
Theorem project_sem_norm_not_implemented (self : CLIP) (x : list R) (l v : Z) :
  L self = Some l -> model_V self = Some v -> 0 <= l -> 0 <= v ->
  Z.of_nat (length x) = l * v ->
  Sparo._project_for_sparo (Sparo.with_sparo_type self "sem:norm") x = Err NotImplementedError /\
  Forall (fun t => Sparo.is_ok (Sparo._project_for_sparo (Sparo.with_sparo_type self t) x) = true)
    ["sem:sqrtsoftmax"; "sem:softmax"; "sem:const"; "cont:norm"; "sqrtsem:norm"]%string.
Proof.
  intros HL HV Hl Hv Hlen.
  unfold Sparo._project_for_sparo, Sparo.with_sparo_type; cbn [L model_V sparo_type].
  rewrite (view_slots_ok _ _ l v x HL HV Hl Hv Hlen), HL.
  split; [reflexivity|].
  repeat constructor.
Qed.

Lemma project_sem_norm_not_implemented_witness :
  (L (sample_clip "cont:const") = Some 2 /\ model_V (sample_clip "cont:const") = Some 2 /\
   0 <= 2 /\ 0 <= 2 /\ Z.of_nat (length [0%R; 0%R; 0%R; 0%R]) = 2 * 2) /\
  Sparo._project_for_sparo (Sparo.with_sparo_type (sample_clip "cont:const") "sem:norm")
    [0%R; 0%R; 0%R; 0%R] = Err NotImplementedError.
Proof.
  split; [repeat split; (reflexivity || lia)|].
  apply (project_sem_norm_not_implemented (sample_clip "cont:const") [0%R; 0%R; 0%R; 0%R] 2 2);
    (reflexivity || lia).
Defined.

(** ** Precision conversion *)

Section ConvertIdempotent.

Variable cast_bits : dtype -> dtype -> list Z -> list Z.
Variable dt : dtype.

Abbreviation conv := (fun x => tensor_to cast_bits x dt).

Lemma tensor_to_dtype (t : Tensor) : tdtype (tensor_to cast_bits t dt) = dt.
Proof. unfold tensor_to. by case_decide. Qed.

Lemma tensor_to_same (t : Tensor) : tdtype t = dt -> tensor_to cast_bits t dt = t.
Proof. intros E. unfold tensor_to. by rewrite decide_True. Qed.

Lemma tensor_to_idem (t : Tensor) :
  tensor_to cast_bits (tensor_to cast_bits t dt) dt = tensor_to cast_bits t dt.
Proof. apply tensor_to_same, tensor_to_dtype. Qed.


Lemma conv_names_nil ps : convert_names cast_bits dt [] ps = ps.
Proof.
  unfold convert_names. induction ps as [|[n t] ps IH]; cbn in *; [done | by rewrite IH].
Qed.

Lemma conv_names_ext N1 N2 ps :
  (forall n, existsb (String.eqb n) N1 = existsb (String.eqb n) N2) ->
  convert_names cast_bits dt N1 ps = convert_names cast_bits dt N2 ps.
Proof.
  intros HN. unfold convert_names.
  induction ps as [|[n t] ps IH]; cbn; [done|]. by rewrite IH, HN.
Qed.

Lemma set_converted_conv_names n N ps :
  set_converted cast_bits dt n (convert_names cast_bits dt N ps) = convert_names cast_bits dt (n :: N) ps.
Proof.
  unfold set_converted, convert_names.
  induction ps as [|[m t] ps IH]; cbn; [done|]. rewrite IH.
  destruct (String.eqb m n) eqn:Hmn, (existsb (String.eqb m) N), t; cbn;
    rewrite ?Hmn; cbn; rewrite ?tensor_to_idem; done.
Qed.

Lemma set_converted_as_conv_names n ps :
  set_converted cast_bits dt n ps = convert_names cast_bits dt [n] ps.
Proof. rewrite <- (conv_names_nil ps) at 1. apply set_converted_conv_names. Qed.

Lemma getattr_conv_names N ps m :
  getattr (convert_names cast_bits dt N ps) m =
  (fun t : option Tensor => if existsb (String.eqb m) N then conv <$> t else t)
    <$> getattr ps m.
Proof.
  unfold convert_names.
  induction ps as [|[n t] ps IH]; cbn; [done|].
  destruct (String.eqb n m) eqn:Hnm.
  - apply String.eqb_eq in Hnm. subst n.
    destruct (existsb (String.eqb m) N); cbn; rewrite String.eqb_refl; done.
  - destruct (existsb (String.eqb n) N); cbn; rewrite Hnm; exact IH.
Qed.


Lemma convert_all_required_conv_names names N ps :
  convert_all_required cast_bits dt names (convert_names cast_bits dt N ps) =
  if forallb (has_attr ps) names then Ok (convert_names cast_bits dt (rev names ++ N) ps)
  else Err AttributeError.
Proof.
  revert N. induction names as [|n ns IH]; intros N; cbn; [done|].
  unfold convert_required. rewrite getattr_conv_names. unfold has_attr at 1.
  destruct (getattr ps n); cbn; [|done].
  rewrite set_converted_conv_names, IH, <- app_assoc. done.
Qed.

Lemma has_attr_conv_names N ps n : has_attr (convert_names cast_bits dt N ps) n = has_attr ps n.
Proof. unfold has_attr. rewrite getattr_conv_names. by destruct (getattr ps n). Qed.

Lemma existsb_app_dup (A B : list string) n :
  existsb (String.eqb n) ((A ++ B) ++ A ++ B) = existsb (String.eqb n) (A ++ B).
Proof. rewrite !existsb_app. destruct (existsb _ A), (existsb _ B); done. Qed.

Lemma _convert_weights_idem k ps ps' :
  _convert_weights cast_bits dt k ps = Ok ps' -> _convert_weights cast_bits dt k ps' = Ok ps'.
Proof.
  intros E. rewrite <- (conv_names_nil ps) in E.
  destruct k; unfold _convert_weights in *.
  1-3: (* Conv1d, Conv2d, Linear *)
    repeat rewrite set_converted_conv_names in E; rewrite !getattr_conv_names in E;
    destruct (getattr ps "weight") as [[w|]|] eqn:Hw; cbn in E; try discriminate;
    destruct (getattr ps "bias") as [b|] eqn:Hb; cbn in E; try discriminate;
    injection E as <-;
    repeat rewrite set_converted_conv_names; rewrite !getattr_conv_names, Hw, Hb; cbn;
    f_equal; apply conv_names_ext;
    intros n; cbn; destruct (String.eqb n "bias"), (String.eqb n "weight"); done.
  1-2: (* MultiheadAttention, Attention *)
    rewrite convert_all_required_conv_names in E;
    destruct (forallb (has_attr ps) attn_attrs) eqn:Ha; [|discriminate];
    injection E as <-;
    rewrite convert_all_required_conv_names, Ha; f_equal; apply conv_names_ext; intros n;
    rewrite !existsb_app; unfold attn_attrs; cbn [rev app];
    destruct (existsb (String.eqb n) _); reflexivity.
  1-3: (* CLIP, TextTransformer, VisionTransformer *)
    injection E as <-; unfold convert_optional in *;
    rewrite !set_converted_conv_names; f_equal;
    apply conv_names_ext; intros n; cbn; destruct (String.eqb n _); done.
  rewrite conv_names_nil in E. congruence.
Qed.

Lemma mapM_result_idem {A} (f : A -> result A) (l l' : list A) :
  Forall (fun x => forall y, f x = Ok y -> f y = Ok y) l ->
  mapM_result f l = Ok l' -> mapM_result f l' = Ok l'.
Proof.
  revert l'. induction l as [|x xs IH]; intros l' HF E; cbn in E.
  - by injection E as <-.
  - inversion HF as [|? ? Hx Hxs]; subst.
    destruct (f x) as [y|e] eqn:Hfx; [|discriminate]. cbn in E.
    destruct (mapM_result f xs) as [ys|e] eqn:Hys; [|discriminate]. cbn in E.
    injection E as <-. cbn. rewrite (Hx y eq_refl). cbn. by rewrite (IH ys Hxs eq_refl).
Qed.

Lemma convert_weights_to_lp_idem (m m' : nnModule) :
  convert_weights_to_lp cast_bits dt m = Ok m' ->
  convert_weights_to_lp cast_bits dt m' = Ok m'.
Proof.
  revert m'. induction m as [k ps cs IH] using nnModule_ind_nested. intros m' E.
  cbn [convert_weights_to_lp] in E.
  destruct (mapM_result _ cs) as [cs'|e] eqn:Hcs; [|discriminate]. cbn in E.
  destruct (_convert_weights cast_bits dt k ps) as [ps'|e] eqn:Hps; [|discriminate].
  cbn in E. injection E as <-. cbn [convert_weights_to_lp].
  erewrite mapM_result_idem; [| |exact Hcs].
  - cbn. by rewrite (_convert_weights_idem k ps ps' Hps).
  - eapply Forall_impl; [exact IH|]. intros [n c] Hc y Hy. cbn in Hc.
    destruct (convert_weights_to_lp cast_bits dt c) as [c'|e] eqn:Hc'; [|discriminate].
    cbn in Hy. injection Hy as <-. cbn. by rewrite (Hc c' eq_refl).
Qed.

End ConvertIdempotent.

(** C8: [convert_weights_to_lp] is idempotent: converting the converted
    model again to the same dtype gives the same parameters bit for bit
    (and the same exception, if the first conversion raised). *)
Theorem convert_weights_to_lp_idempotent
    (cast_bits : dtype -> dtype -> list Z -> list Z) (dt : dtype) (m : nnModule) :
  (convert_weights_to_lp cast_bits dt m ≫= convert_weights_to_lp cast_bits dt) =
  convert_weights_to_lp cast_bits dt m.
Proof.
  destruct (convert_weights_to_lp cast_bits dt m) as [m'|e] eqn:E; cbn; [|done].
  exact (convert_weights_to_lp_idem cast_bits dt m m' E).
Qed.


(** ** Legacy-checkpoint adapter *)

Lemma dim0_head (sh : list nat) (n : nat) : head sh = Some n -> dim0 sh = Ok n.
Proof. destruct sh; cbn; congruence. Qed.

Lemma dimlast_last (sh : list nat) (n : nat) : last sh = Some n -> dimlast sh = Ok n.
Proof. unfold dimlast. intros ->. reflexivity. Qed.

(** C6: for a ViT export with [visual.conv1.weight] of first dimension 768
    and last dimension 16, twelve [visual.*.attn.in_proj_weight] keys and a
    position table of [14 * 14 + 1] rows, the inferred vision configuration
    has width 768, 12 layers, patch size 16 and image size 224. *)
Theorem openai_vit_shape_inference (d : gmap string Tensor) (conv1 pos : Tensor) :
  is_Some (d !! "visual.proj") ->
  d !! "visual.conv1.weight" = Some conv1 ->
  head (shape conv1) = Some 768%nat -> last (shape conv1) = Some 16%nat ->
  length (filter (fun k => is_vit_attn_key k = true) (keys d)) = 12%nat ->
  d !! "visual.positional_embedding" = Some pos ->
  head (shape pos) = Some (14 * 14 + 1)%nat ->
  exists cfg, openai_vision_cfg d = Ok cfg /\
    vc_width cfg = 768 /\ vc_layers cfg = LayersInt 12 /\
    vc_patch_size cfg = Some 16 /\ vc_image_size cfg = 224.
Proof.
  intros Hproj Hconv Hw Hp Hl Hpos Hg.
  unfold openai_vision_cfg. rewrite bool_decide_eq_true_2 by exact Hproj.
  unfold shape_of. rewrite Hconv, Hpos, Hl. cbn.
  rewrite (dim0_head _ _ Hw), (dimlast_last _ _ Hp), (dim0_head _ _ Hg). cbn.
  eexists; repeat split; reflexivity.
Qed.

Lemma openai_vit_shape_inference_witness :
  exists cfg, openai_vision_cfg sample_openai_dict = Ok cfg /\
    vc_width cfg = 768 /\ vc_layers cfg = LayersInt 12 /\
    vc_patch_size cfg = Some 16 /\ vc_image_size cfg = 224.
Proof.
  apply (openai_vit_shape_inference sample_openai_dict
           (shape_only [768; 3; 16; 16]%nat) (shape_only [197; 768]%nat)).
  - vm_compute. eexists. reflexivity.
  - vm_compute. reflexivity.
  - reflexivity.
  - reflexivity.
  - vm_compute. reflexivity.
  - vm_compute. reflexivity.
  - reflexivity.
Defined.

Lemma openai_vision_cfg_fields (d : gmap string Tensor) (vcfg : CLIPVisionCfg) :
  openai_vision_cfg d = Ok vcfg ->
  vc_timm_model_name vcfg = None /\ vc_head_width vcfg = 64.
Proof.
  intros E. unfold openai_vision_cfg in E.
  destruct (bool_decide _);
  repeat (match type of E with
          | ?x ≫= _ = _ => destruct x; cbn in E; try discriminate
          end);
  injection E as <-; split; reflexivity.
Qed.

Lemma CLIP_init_plain_ok (a : CLIPArgs) :
  a_use_sparo a = false -> a_use_codebook a = false ->
  vc_timm_model_name (a_vision_cfg a) = None -> vc_head_width (a_vision_cfg a) = 64 ->
  exists tr clip, CLIP_init a = (tr, Ok clip).
Proof.
  intros Hs Hc Ht Hh. unfold CLIP_init. rewrite Hs, Hc. cbn.
  unfold _build_vision_tower, floordiv. rewrite Ht, Hh. cbn.
  destruct (vc_layers (a_vision_cfg a)); cbn;
  unfold _build_text_tower; destruct (str_truthy (tc_hf_model_name (a_text_cfg a))); cbn;
  eauto.
Qed.

Lemma pop_unused_keys_lookup (d : gmap string Tensor) (k : string) :
  pop_unused_keys d !! k =
  if decide (k ∈ openai_unused_keys) then None else d !! k.
Proof.
  unfold pop_unused_keys, openai_unused_keys. cbn.
  rewrite !lookup_delete. repeat case_decide; set_solver.
Qed.

(** C1 (counterexample): on a legacy export holding the metadata entries
    [input_resolution], [context_length] and [vocab_size], the dict left
    for the load has three keys fewer, not two. *)
Lemma build_model_strips_three_keys :
  size (dom sample_openai_dict ∖
        dom (fst (build_model_from_openai_state_dict (fun _ _ x => x)
                    (fun _ => mk_module OtherModule [] []) sample_openai_dict true
                    (Some float16)))) = 3%nat.
Proof. vm_compute. reflexivity. Qed.

(** C1 (amended): once the configuration is inferred and the model
    constructed, [build_model_from_openai_state_dict] pops exactly the
    keys [input_resolution], [context_length] and [vocab_size] (those
    present) from the dict, and then converts the model to float16 and
    runs the strict load on the stripped dict. *)
Theorem build_model_pops_unused_keys
    (cast_bits : dtype -> dtype -> list Z -> list Z) (init_modules : CLIP -> nnModule)
    (d : gmap string Tensor) (quick_gelu : bool) (cast_dtype : option dtype)
    (vcfg : CLIPVisionCfg) (e : Z) (tcfg : CLIPTextCfg) :
  openai_vision_cfg d = Ok vcfg -> openai_text_cfg d = Ok (e, tcfg) ->
  (forall k, pop_unused_keys d !! k =
             if decide (k ∈ ["input_resolution"; "context_length"; "vocab_size"]%string)
             then None else d !! k) /\
  exists clip,
    build_model_from_openai_state_dict cast_bits init_modules d quick_gelu cast_dtype =
    (pop_unused_keys d,
     m ← convert_weights_to_lp cast_bits float16 (init_modules clip);
     m ← load_state_dict cast_bits m (pop_unused_keys d);
     Ok {| lm_clip := clip; lm_module := m; lm_training := false |}).
Proof.
  intros Hv Ht. split; [apply pop_unused_keys_lookup|].
  destruct (openai_vision_cfg_fields d vcfg Hv) as [Htimm Hhw].
  unfold build_model_from_openai_state_dict. rewrite Hv, Ht. cbn -[CLIP_init pop_unused_keys].
  match goal with |- context [CLIP_init ?a] =>
    destruct (CLIP_init_plain_ok a) as (tr & clip & Hc); try reflexivity; try assumption
  end.
  rewrite Hc. cbn. eexists. reflexivity.
Qed.

Lemma build_model_pops_unused_keys_witness :
  exists vcfg e tcfg,
    openai_vision_cfg sample_openai_dict = Ok vcfg /\
    openai_text_cfg sample_openai_dict = Ok (e, tcfg) /\
    exists clip,
      build_model_from_openai_state_dict (fun _ _ x => x) (fun _ => mk_module OtherModule [] [])
        sample_openai_dict true (Some float16) =
      (pop_unused_keys sample_openai_dict,
       m ← convert_weights_to_lp (fun _ _ x => x) float16 (mk_module OtherModule [] []);
       m ← load_state_dict (fun _ _ x => x) m (pop_unused_keys sample_openai_dict);
       Ok {| lm_clip := clip; lm_module := m; lm_training := false |}).
Proof.
  do 3 eexists. split; [vm_compute; reflexivity|]. split; [vm_compute; reflexivity|].
  refine (proj2 (build_model_pops_unused_keys (fun _ _ x => x)
                   (fun _ => mk_module OtherModule [] []) sample_openai_dict true
                   (Some float16) _ _ _ _ _)); vm_compute; reflexivity.
Defined.

(** C7 (counterexample): with the default [interpolation="bicubic"] and
    [antialias=True], a table whose two non-class rows cannot be reshaped
    into a square grid of the table's width makes [resize_pos_embed] raise
    ([torch.cat] of a width-1 class row with width-2 resized rows) rather
    than rewrite the key. *)
Lemma resize_pos_embed_non_square_raises :
  resize_pos_embed nearest_interpolate odd_pos_dict (Some (14, 14)%nat) "bicubic" true =
  Err RuntimeError.
Proof. vm_compute. reflexivity. Qed.

Lemma length_firstn_le {A} (n : nat) (l : list A) :
  (n <= length l)%nat -> length (firstn n l) = n.
Proof. intros H. rewrite length_firstn. lia. Qed.

Lemma interpolate_checks_ok (mode : string) (antialias : bool) (u : unit) :
  interpolate_checks mode antialias = Ok u ->
  mode = "bilinear"%string \/ mode = "bicubic"%string.
Proof.
  unfold interpolate_checks.
  destruct (String.eqb_spec mode "nearest"), (String.eqb_spec mode "area"),
    (String.eqb_spec mode "nearest-exact"); cbn [orb]; try discriminate.
  destruct (String.eqb_spec mode "bilinear"), (String.eqb_spec mode "bicubic"),
    antialias; cbn; try discriminate; tauto.
Qed.

Lemma interpolate_checks_accept (mode : string) (antialias : bool) :
  mode = "bilinear"%string \/ mode = "bicubic"%string ->
  interpolate_checks mode antialias = Ok tt.
Proof. intros [->| ->]; destruct antialias; reflexivity. Qed.

(** C7 (amended): [resize_pos_embed] leaves the dict unchanged when it
    lacks the position-embedding key or when the stored table, of any
    rank, already has [g0 * g1 + 1] rows. Otherwise it rewrites the key
    exactly when the table is 2-D of positive width, its non-class rows form
    an [n x n] grid with [n > 0], the target grid is non-empty and the mode
    is ["bilinear"] or ["bicubic"] (the modes [F.interpolate] accepts with
    [align_corners=False] on this input); when the resampling returns
    [g0 * g1] pixels of the table's width the new table has exactly
    [g0 * g1 + 1] rows whose first (class-token) row is the original first
    row. In every other case it raises. *)
Theorem resize_pos_embed_square_grid
    (interpolate : string -> bool -> nat -> nat * nat -> nat * nat ->
                   list (list Z) -> list (list Z))
    (interpolation : string) (antialias : bool) (g0 g1 : nat) :
  (forall d, d !! "visual.positional_embedding"%string = None ->
     resize_pos_embed interpolate d (Some (g0, g1)) interpolation antialias = Ok d) /\
  (forall d t rest, d !! "visual.positional_embedding"%string = Some t ->
     shape t = S (g0 * g1) :: rest ->
     resize_pos_embed interpolate d (Some (g0, g1)) interpolation antialias = Ok d) /\
  (forall d t n width,
     d !! "visual.positional_embedding"%string = Some t ->
     shape t = [S (n * n); width] -> length (data t) = (S (n * n) * width)%nat ->
     (0 < n)%nat -> (0 < width)%nat -> (0 < g0 * g1)%nat ->
     (interpolation = "bilinear"%string \/ interpolation = "bicubic"%string) ->
     length (concat (interpolate interpolation antialias width (n, n) (g0, g1)
                       (chunks width (n * n) (skipn width (data t))))) =
       (g0 * g1 * width)%nat ->
     exists t',
       resize_pos_embed interpolate d (Some (g0, g1)) interpolation antialias =
         Ok (<["visual.positional_embedding"%string := t']> d) /\
       is_table t' (S (g0 * g1)) width /\ table_row t' 0 = table_row t 0) /\
  (forall d t,
     d !! "visual.positional_embedding"%string = Some t ->
     ~ (exists rest, shape t = S (g0 * g1) :: rest) ->
     ~ (exists n width, shape t = [S (n * n); width] /\ (0 < n)%nat /\ (0 < width)%nat /\
          (0 < g0 * g1)%nat /\
          (interpolation = "bilinear"%string \/ interpolation = "bicubic"%string)) ->
     exists e,
       resize_pos_embed interpolate d (Some (g0, g1)) interpolation antialias = Err e).
Proof.
  split; [|split; [|split]].
  - intros d Hd. unfold resize_pos_embed. rewrite Hd. reflexivity.
  - intros d t rest Hd Hs. unfold resize_pos_embed. rewrite Hd, Hs. cbv zeta.
    rewrite Nat.add_1_r, Nat.eqb_refl. reflexivity.
  - intros d t n width Hd Hs Hlen Hn Hw Hg Hmode Hint.
    destruct (Nat.eq_dec (g0 * g1) (n * n))%nat as [Heq|Hne].
    + exists t. unfold resize_pos_embed. rewrite Hd, Hs. cbv zeta.
      rewrite Heq, Nat.add_1_r, Nat.eqb_refl.
      (* the table is already the target size: the dict is unchanged *)
      rewrite insert_id by exact Hd. split; [reflexivity|].
      split; [split; assumption | reflexivity].
    + unfold resize_pos_embed. rewrite Hd, Hs. cbv zeta.
      assert (Hrows : Nat.eqb (g0 * g1 + 1) (S (n * n)) = false)
        by (apply Nat.eqb_neq; lia).
      rewrite Hrows.
      assert (Htok : Nat.min (S (n * n)) 1 = 1%nat) by lia. rewrite Htok.
      assert (Himg : (S (n * n) - 1 = n * n)%nat) by lia. rewrite Himg.
      cbn [fold_right]. rewrite Nat.mul_1_r.
      rewrite Nat.sqrt_square.
      assert (Hc : Nat.eqb (n * n) 0 = false) by (apply Nat.eqb_neq; nia). rewrite Hc.
      assert (Hnn : (n * n <> 0)%nat) by nia.
      rewrite Nat.mul_comm with (n := (n * n)%nat) (m := width).
      rewrite Nat.Div0.mod_mul, Nat.div_mul by exact Hnn. cbn [Nat.eqb negb].
      rewrite (interpolate_checks_accept _ antialias Hmode). cbn [mbind result_bind].
      assert (Hw' : Nat.eqb width 0 = false) by (apply Nat.eqb_neq; lia). rewrite Hw'.
      assert (Hg' : Nat.eqb (g0 * g1) 0 = false) by (apply Nat.eqb_neq; lia). rewrite Hg'.
      cbn [orb]. rewrite Nat.eqb_refl. cbn [negb]. rewrite Nat.mul_1_l.
      eexists. split; [reflexivity|]. split.
      * split; [reflexivity|]. cbn [data]. rewrite length_app, Hint.
        rewrite length_firstn_le by (rewrite Hlen; nia). lia.
      * unfold table_row. rewrite Hs. cbn [shape data]. rewrite Nat.mul_0_l, !skipn_O.
        rewrite firstn_app, length_firstn_le by (rewrite Hlen; nia).
        rewrite Nat.sub_diag, firstn_O, app_nil_r, firstn_firstn, Nat.min_id. reflexivity.
  - intros d t Hd Hearly Hsq.
    destruct (resize_pos_embed interpolate d (Some (g0, g1)) interpolation antialias)
      as [d'|e] eqn:E; [exfalso|eauto].
    unfold resize_pos_embed in E. rewrite Hd in E. cbv zeta in E.
    destruct (shape t) as [|rows rest] eqn:Hs; [discriminate|].
    destruct (Nat.eqb_spec (g0 * g1 + 1) rows) as [Hr|Hr].
    { apply Hearly. exists rest. f_equal. lia. }
    set (g := Nat.sqrt (rows - 1)) in E.
    destruct (Nat.eqb_spec (g * g) 0) as [|Hc]; [discriminate|].
    set (numel := ((rows - 1) * fold_right Nat.mul 1%nat rest)%nat) in E.
    destruct (Nat.eqb_spec (numel mod (g * g)) 0) as [Hm|]; cbn [negb] in E; [|discriminate].
    destruct (interpolate_checks interpolation antialias) as [u|] eqn:Ei;
      cbn [mbind result_bind] in E; [|discriminate].
    destruct (Nat.eqb_spec (numel / (g * g)) 0) as [|Hch]; [discriminate|].
    destruct (Nat.eqb_spec (g0 * g1) 0) as [|Hg]; cbn [orb] in E; [discriminate|].
    destruct rest as [|width [|]]; try discriminate.
    destruct (Nat.eqb_spec (numel / (g * g)) width) as [Hw|]; cbn [negb] in E; [|discriminate].
    apply Hsq. subst numel. cbn [fold_right] in *. rewrite Nat.mul_1_r in *.
    assert (Hdiv : ((rows - 1) * width = g * g * width)%nat).
    { rewrite (Nat.div_mod_eq ((rows - 1) * width) (g * g)), Hm, Hw. lia. }
    assert (Hw0 : (0 < width)%nat) by lia.
    assert (Hrg : (rows - 1 = g * g)%nat) by (apply (Nat.mul_cancel_r _ _ width); lia).
    assert (Hrows : rows = S (g * g)).
    { destruct rows as [|rows]; [cbn in Hrg; lia | lia]. }
    exists g, width. rewrite Hrows. split; [reflexivity|].
    split; [nia|]. split; [exact Hw0|]. split; [lia|].
    exact (interpolate_checks_ok _ _ _ Ei).
Qed.

Lemma resize_pos_embed_square_grid_witness :
  exists t',
    resize_pos_embed nearest_interpolate small_pos_dict (Some (3, 3)%nat) "bicubic" true =
      Ok (<["visual.positional_embedding"%string := t']> small_pos_dict) /\
    is_table t' 10%nat 2%nat /\ table_row t' 0 = table_row small_pos_table 0.
Proof.
  refine (proj1 (proj2 (proj2 (resize_pos_embed_square_grid nearest_interpolate "bicubic" true 3 3)))
            small_pos_dict small_pos_table 2%nat 2%nat _ _ _ _ _ _ _ _);
  [vm_compute; reflexivity .. | lia | lia | lia | right; reflexivity | vm_compute; reflexivity].
Defined.

Lemma concat_scale_slots_const (f : list R -> list R) (c : R) (xs : list (list R)) :
  concat (Sparo.scale_slots (map f xs) (map (fun _ => c) xs)) =
  concat (map (fun s => map (fun a => (a * c)%R) (f s)) xs).
Proof.
  induction xs as [|s xs IH]; [reflexivity|]. cbn. f_equal. exact IH.
Qed.

(** C4: with weighting ["const"] and representation ["cont"] or ["sem"],
    [_project_for_sparo] succeeds on every flat vector of length [L * V],
    and flattening its [(L, V)] result gives, slot by slot, the
    normalized slot scaled by [sqrt (1 / L)] (exactly, in real
    arithmetic; this covers [L] in [{1, 4, 16}]). *)
Theorem project_const_roundtrip (self : CLIP) (x : list R) (l v : Z) (rep : string) :
  L self = Some l -> 0 <= l -> model_V self = Some v -> 0 <= v ->
  Z.of_nat (length x) = l * v ->
  (rep = "cont"%string \/ rep = "sem"%string) ->
  sparo_type self = String.append rep ":const" ->
  exists out,
    Sparo._project_for_sparo self x = Ok out /\
    concat out =
    concat (map (fun s => map (fun a => (a * sqrt (1 / IZR l))%R) (slot_normalization rep s))
                (chunks (Z.to_nat v) (Z.to_nat l) x)).
Proof.
  intros HL Hl HV Hv Hlen Hrep Hst.
  unfold Sparo._project_for_sparo.
  rewrite (view_slots_ok _ _ l v x HL HV Hl Hv Hlen), Hst, HL.
  destruct Hrep as [-> | ->]; cbn; eexists; (split; [reflexivity|]);
    rewrite <- concat_scale_slots_const; reflexivity.
Qed.

Lemma project_const_roundtrip_witness :
  exists out,
    Sparo._project_for_sparo (sample_clip "sem:const") [1; 2; 3; 4]%R = Ok out /\
    concat out =
    concat (map (fun s => map (fun a => (a * sqrt (1 / IZR 2))%R) (slot_normalization "sem" s))
                (chunks (Z.to_nat 2) (Z.to_nat 2) [1; 2; 3; 4]%R)).
Proof.
  apply (project_const_roundtrip (sample_clip "sem:const") [1; 2; 3; 4]%R 2 2 "sem");
    (reflexivity || lia || right; reflexivity).
Defined.

(** ** Softmax weights *)

Section SoftmaxWeights.
Local Open Scope R_scope.

Lemma Rsum_nil : Sparo.Rsum [] = 0.
Proof. reflexivity. Qed.

Lemma Rsum_cons (a : R) (l : list R) : Sparo.Rsum (a :: l) = a + Sparo.Rsum l.
Proof. reflexivity. Qed.

Lemma Rsum_map_div (f : R -> R) (c : R) (l : list R) :
  Sparo.Rsum (map (fun a => f a / c) l) = Sparo.Rsum (map f l) / c.
Proof.
  induction l as [|a l IH]; cbn [map]; rewrite ?Rsum_nil, ?Rsum_cons; [unfold Rdiv; ring|].
  rewrite IH. unfold Rdiv. ring.
Qed.

Lemma Rsum_nonneg (l : list R) : Forall (fun a => 0 <= a) l -> 0 <= Sparo.Rsum l.
Proof. induction 1; rewrite ?Rsum_nil, ?Rsum_cons; lra. Qed.

Lemma Rsum_exp_pos (l : list R) : l <> [] -> 0 < Sparo.Rsum (map exp l).
Proof.
  destruct l as [|a l]; [congruence|]. intros _. cbn [map]. rewrite Rsum_cons.
  pose proof (exp_pos a).
  assert (0 <= Sparo.Rsum (map exp l)).
  { apply Rsum_nonneg. apply List.Forall_forall. intros y Hy.
    apply in_map_iff in Hy as (z & <- & _). left. apply exp_pos. }
  lra.
Qed.

Lemma Rsum_softmax (l : list R) : l <> [] -> Sparo.Rsum (Sparo.softmax l) = 1.
Proof.
  intros Hl. unfold Sparo.softmax. cbv zeta. rewrite (Rsum_map_div exp).
  pose proof (Rsum_exp_pos l Hl). field. lra.
Qed.

(** Cauchy-Schwarz against the all-ones vector. *)
Lemma Rsum_sq_le (l : list R) :
  Sparo.Rsum l * Sparo.Rsum l <= INR (length l) * Sparo.Rsum (map (fun a => a * a) l).
Proof.
  induction l as [|a l IH]; cbn [map length]; rewrite ?Rsum_nil, ?Rsum_cons; [lra|].
  assert (HQ : 0 <= Sparo.Rsum (map (fun a => a * a) l)).
  { apply Rsum_nonneg, List.Forall_forall. intros y Hy.
    apply in_map_iff in Hy as (z & <- & _). nra. }
  set (S := Sparo.Rsum l) in *. set (Q := Sparo.Rsum (map (fun a => a * a) l)) in *.
  rewrite S_INR. set (k := INR (length l)) in *.
  assert (Hk : 0 <= k) by apply pos_INR.
  destruct (Req_dec k 0) as [Hk0|Hk0].
  - assert (HS : S * S <= 0) by (rewrite Hk0 in IH; lra).
    assert (HS0 : S = 0) by nra. rewrite Hk0, HS0. nra.
  - assert (Hkp : 0 < k) by lra.
    apply Rmult_le_reg_l with k; [exact Hkp|].
    pose proof (Rle_0_sqr (k * a - S)). unfold Rsqr in *. nra.
Qed.

Lemma l2norm_normalize_unit (w : list R) :
  Sparo.eps <= Sparo.l2norm w -> Sparo.l2norm (Sparo.normalize w) = 1.
Proof.
  intros Hge. unfold Sparo.normalize. cbv zeta. rewrite Rmax_left by exact Hge.
  assert (Heps : 0 < Sparo.eps).
  { unfold Sparo.eps. apply Rinv_0_lt_compat, pow_lt. lra. }
  set (N := Sparo.l2norm w) in *.
  assert (HN2 : N * N = Sparo.Rsum (map (fun a => a * a) w)).
  { unfold N, Sparo.l2norm. apply sqrt_sqrt.
    apply Rsum_nonneg, List.Forall_forall. intros y Hy.
    apply in_map_iff in Hy as (z & <- & _). nra. }
  unfold Sparo.l2norm at 1. rewrite map_map.
  rewrite (map_ext (fun a => a / N * (a / N)) (fun a => (a * a) / (N * N))) by
    (intros a; field; lra).
  rewrite (Rsum_map_div (fun a => a * a)), <- HN2.
  replace (N * N / (N * N)) with 1 by (field; lra). apply sqrt_1.
Qed.

Lemma eps_sq_scaled : Sparo.eps * Sparo.eps * 10 ^ 24 = 1.
Proof. unfold Sparo.eps. field. Qed.

Lemma l2norm_softmax_ge (f : list R) :
  f <> [] -> INR (length f) <= 10 ^ 24 -> Sparo.eps <= Sparo.l2norm (Sparo.softmax f).
Proof.
  intros Hf Hn.
  pose proof (Rsum_sq_le (Sparo.softmax f)) as Hcs.
  rewrite Rsum_softmax in Hcs by exact Hf.
  assert (Hlen : length (Sparo.softmax f) = length f).
  { unfold Sparo.softmax. cbv zeta. apply length_map. }
  rewrite Hlen in Hcs.
  set (Q := Sparo.Rsum (map (fun a => a * a) (Sparo.softmax f))) in *.
  assert (HQ : 0 <= Q).
  { apply Rsum_nonneg, List.Forall_forall. intros y Hy.
    apply in_map_iff in Hy as (z & <- & _). nra. }
  assert (Heps : 0 < Sparo.eps).
  { unfold Sparo.eps. apply Rinv_0_lt_compat, pow_lt. lra. }
  pose proof eps_sq_scaled as HE.
  set (T := 10 ^ 24) in *. set (n := INR (length f)) in *.
  assert (HEQ : Sparo.eps * Sparo.eps <= Q).
  { set (E := Sparo.eps * Sparo.eps) in *.
    assert (HE0 : 0 < E) by (unfold E; nra).
    assert (H1 : E * 1 <= E * (n * Q)) by (apply Rmult_le_compat_l; lra).
    assert (H2 : E * (n * Q) <= E * (T * Q)).
    { apply Rmult_le_compat_l; [lra|]. apply Rmult_le_compat_r; lra. }
    replace (E * (T * Q)) with (E * T * Q) in H2 by ring. rewrite HE in H2. lra. }
  unfold Sparo.l2norm. fold Q.
  rewrite <- (sqrt_square Sparo.eps) by lra.
  apply sqrt_le_1_alt. exact HEQ.
Qed.

(** [int64] sizes are far below the [10^24] slots where [eps] would bite. *)
Lemma int64_size_bound (n : nat) : (Z.of_nat n < 2 ^ 63)%Z -> INR n <= 10 ^ 24.
Proof.
  intros H. rewrite INR_IZR_INZ. apply IZR_lt in H.
  assert (IZR (2 ^ 63) <= 10 ^ 24).
  { rewrite (pow_IZR 10 24). apply IZR_le. vm_compute. congruence. }
  lra.
Qed.

End SoftmaxWeights.

(** C5: with weighting ["softmax"], for every [(L, V)] input of at least
    one slot (and an [int64]-sized slot count), the per-slot weights are
    the L2-renormalized softmax of the first channel across slots, they
    have L2 norm exactly 1 along the slot axis, and the value rows are the
    slots with their first channel dropped. *)
Theorem softmax_weights_unit_norm (Lz : Z) (rep : string) (x : list (list R)) :
  (1 <= length x)%nat -> (Z.of_nat (length x) < 2 ^ 63)%Z ->
  exists w vals,
    Sparo.sparo_weights Lz rep "softmax" x = Ok (w, vals) /\
    w = Sparo.normalize (Sparo.softmax (Sparo.first_channel x)) /\
    length w = length x /\
    Sparo.l2norm w = 1%R /\
    vals = Sparo.drop_first_channel x.
Proof.
  intros H1 H63.
  exists (Sparo.normalize (Sparo.softmax (Sparo.first_channel x))),
         (Sparo.drop_first_channel x).
  split; [reflexivity|]. split; [reflexivity|].
  assert (Hf : length (Sparo.first_channel x) = length x) by apply length_map.
  split; [|split; [|reflexivity]].
  - unfold Sparo.normalize, Sparo.softmax. cbv zeta. rewrite !length_map. exact Hf.
  - apply l2norm_normalize_unit, l2norm_softmax_ge.
    + intros E. apply (f_equal (@length R)) in E. rewrite Hf in E. cbn in E. lia.
    + rewrite Hf. apply int64_size_bound. exact H63.
Qed.

Lemma softmax_weights_unit_norm_witness :
  exists w vals,
    Sparo.sparo_weights 3 "cont" "softmax" [[0; 1]; [1; 2]; [2; 3]]%R = Ok (w, vals) /\
    w = Sparo.normalize (Sparo.softmax (Sparo.first_channel [[0; 1]; [1; 2]; [2; 3]]%R)) /\
    length w = 3%nat /\
    Sparo.l2norm w = 1%R /\
    vals = Sparo.drop_first_channel [[0; 1]; [1; 2]; [2; 3]]%R.
Proof.
  apply (softmax_weights_unit_norm 3 "cont" [[0; 1]; [1; 2]; [2; 3]]%R);
    [cbn; lia | vm_compute; reflexivity].
Defined.

(* ================================================================== *)
(** * Further properties of the code *)

(** ** Precision names *)

(** [get_cast_dtype] gives a dtype only for ["bf16"] (bfloat16) and
    ["fp16"] (float16); [get_input_dtype] agrees with it wherever it
    gives a dtype; they differ exactly on ["pure_bf16"] and ["pure_fp16"]
    (an input dtype but no cast dtype), and the towers get the float32
    LayerNorm exactly for the precisions ["bf16"] and ["fp16"]. *)
Theorem precision_dtypes (p : string) :
  (forall d, get_cast_dtype p = Some d <->
     (p = "bf16"%string /\ d = bfloat16) \/ (p = "fp16"%string /\ d = float16)) /\
  (forall d, get_cast_dtype p = Some d -> get_input_dtype p = Some d) /\
  (get_input_dtype p <> get_cast_dtype p <-> p = "pure_bf16"%string \/ p = "pure_fp16"%string) /\
  (norm_layer_for (get_cast_dtype p) = LayerNormFp32 <-> p = "bf16"%string \/ p = "fp16"%string).
Proof.
  unfold get_cast_dtype, get_input_dtype.
  destruct (String.eqb_spec p "bf16") as [->|H1]; [cbn; intuition congruence|].
  destruct (String.eqb_spec p "fp16") as [->|H2]; [cbn; intuition congruence|].
  destruct (String.eqb_spec p "pure_bf16") as [->|H3]; [cbn; intuition congruence|].
  destruct (String.eqb_spec p "pure_fp16") as [->|H4]; [cbn; intuition congruence|].
  cbn. intuition congruence.
Qed.

(** ** Checkpoint key conversion *)

Lemma odict_set_keys (d : odict) (k key : string) (v : Tensor) :
  In key (map fst (odict_set d k v)) -> In key (map fst d) \/ key = k.
Proof.
  induction d as [|[k' v'] d IH]; cbn; [intuition|].
  destruct (String.eqb_spec k' k) as [->|Hne]; cbn; [intuition|].
  intros [<-|Hin]; [tauto|]. destruct (IH Hin); tauto.
Qed.

Lemma odict_set_fresh (d : odict) (k : string) (v : Tensor) :
  ~ In k (map fst d) -> odict_set d k v = d ++ [(k, v)].
Proof.
  induction d as [|[k' v'] d IH]; cbn; [reflexivity|]. intros Hn.
  destruct (String.eqb_spec k' k) as [->|Hne]; [tauto|]. rewrite IH by tauto. reflexivity.
Qed.

Lemma custom_text_fold_keys (d acc : odict) (key : string) :
  In key (map fst (fold_left (fun nd '(k, v) => odict_set nd (custom_text_key k) v) d acc)) ->
  In key (map fst acc) \/ exists k v, In (k, v) d /\ key = custom_text_key k.
Proof.
  revert acc. induction d as [|[k v] d IH]; intros acc; cbn; [tauto|].
  intros Hin. destruct (IH _ Hin) as [Hacc|(k' & v' & Hkv & ->)].
  - destruct (odict_set_keys _ _ _ _ Hacc) as [H | ->]; [tauto|]. right. eauto.
  - right. eauto.
Qed.

Lemma custom_text_fold_fresh (d acc : odict) :
  NoDup (map fst acc ++ map (fun kv => custom_text_key (fst kv)) d) ->
  fold_left (fun nd '(k, v) => odict_set nd (custom_text_key k) v) d acc =
  acc ++ map (fun '(k, v) => (custom_text_key k, v)) d.
Proof.
  revert acc. induction d as [|[k v] d IH]; intros acc Hnd; cbn; [by rewrite app_nil_r|].
  cbn in Hnd. rewrite odict_set_fresh.
  - rewrite IH; [by rewrite <- app_assoc|].
    rewrite map_app, <- app_assoc. exact Hnd.
  - intros Hin. apply NoDup_app in Hnd as (_ & Hdis & _).
    apply (Hdis (custom_text_key k)); [by apply list_elem_of_In | by left].
Qed.

Lemma custom_text_key_not_text_projection (k : string) :
  custom_text_key k <> "text_projection"%string.
Proof.
  unfold custom_text_key. destruct (existsb _ _) eqn:E.
  - intros H. apply (f_equal (String.get 4)) in H. cbn in H. discriminate.
  - intros ->. cbn in E. discriminate.
Qed.

(** [convert_to_custom_text_state_dict] is idempotent: a converted dict
    has no ["text_projection"] key any more (it became
    ["text.text_projection"]), so a second conversion returns it as is. *)
Theorem convert_to_custom_text_state_dict_idempotent (d : odict) :
  convert_to_custom_text_state_dict (convert_to_custom_text_state_dict d) =
  convert_to_custom_text_state_dict d.
Proof.
  destruct (odict_mem d "text_projection") eqn:Hm.
  2:{ assert (E : convert_to_custom_text_state_dict d = d)
        by (unfold convert_to_custom_text_state_dict; by rewrite Hm).
      by rewrite !E. }
  set (r := fold_left (fun nd '(k, v) => odict_set nd (custom_text_key k) v) d []).
  assert (E : convert_to_custom_text_state_dict d = r)
    by (unfold convert_to_custom_text_state_dict; by rewrite Hm).
  rewrite E. unfold convert_to_custom_text_state_dict at 1.
  assert (Hr : odict_mem r "text_projection" = false).
  { apply Bool.not_true_iff_false. unfold odict_mem. intros Hex.
    apply existsb_exists in Hex as ([k' v'] & Hin & Heq).
    apply String.eqb_eq in Heq. subst k'.
    assert (Hin' : In "text_projection"%string (map fst r)).
    { apply in_map_iff. exists ("text_projection"%string, v'). auto. }
    destruct (custom_text_fold_keys d nil _ Hin') as [Hnil|(k & v & _ & Hk)];
      [destruct Hnil|].
    symmetry in Hk. exact (custom_text_key_not_text_projection k Hk). }
  by rewrite Hr.
Qed.

(** On a legacy dict (one with ["text_projection"]) whose converted keys
    do not collide, [convert_to_custom_text_state_dict] keeps every entry,
    its value and its position, and renames exactly the text-tower keys
    to ['text.' + key]. *)
Theorem convert_to_custom_text_state_dict_renames (d : odict) :
  odict_mem d "text_projection" = true ->
  NoDup (map (fun kv => custom_text_key (fst kv)) d) ->
  convert_to_custom_text_state_dict d = map (fun '(k, v) => (custom_text_key k, v)) d.
Proof.
  intros Hm Hnd. unfold convert_to_custom_text_state_dict. rewrite Hm.
  apply custom_text_fold_fresh. exact Hnd.
Qed.

Lemma convert_to_custom_text_state_dict_renames_witness :
  convert_to_custom_text_state_dict legacy_text_odict =
  map (fun '(k, v) => (custom_text_key k, v)) legacy_text_odict.
Proof.
  apply convert_to_custom_text_state_dict_renames; [reflexivity|].
  vm_compute. apply NoDup_ListNoDup. repeat constructor; cbn; intuition discriminate.
Defined.

(** ** End-of-text position *)

Lemma argmax_from_spec (pre xs : list Z) (bi : nat) (b : Z) :
  nth_error pre bi = Some b ->
  (forall j y, nth_error pre j = Some y -> y <= b) ->
  (forall j y, (j < bi)%nat -> nth_error pre j = Some y -> y < b) ->
  exists m, nth_error (pre ++ xs) (argmax_from bi b (length pre) xs) = Some m /\
    (forall j y, nth_error (pre ++ xs) j = Some y -> y <= m) /\
    (forall j y, (j < argmax_from bi b (length pre) xs)%nat ->
                 nth_error (pre ++ xs) j = Some y -> y < m).
Proof.
  revert pre bi b. induction xs as [|x xs IH]; intros pre bi b Hb Hle Hlt.
  - rewrite app_nil_r. cbn. eauto.
  - cbn. replace (pre ++ x :: xs) with ((pre ++ [x]) ++ xs) by (rewrite <- app_assoc; reflexivity).
    assert (Hbi : (bi < length pre)%nat) by (apply nth_error_Some; congruence).
    destruct (Z.ltb_spec b x) as [Hbx|Hxb].
    + replace (S (length pre)) with (length (pre ++ [x])) by (rewrite length_app; cbn; lia).
      apply IH.
      * rewrite nth_error_app2 by lia. rewrite Nat.sub_diag. reflexivity.
      * intros j y Hj. destruct (Nat.lt_ge_cases j (length pre)) as [Hj'|Hj'].
        -- rewrite nth_error_app1 in Hj by exact Hj'. specialize (Hle _ _ Hj). lia.
        -- rewrite nth_error_app2 in Hj by exact Hj'.
           destruct (j - length pre)%nat as [|[|k]]; cbn in Hj; try discriminate.
           injection Hj as <-. lia.
      * intros j y Hj Hjy. rewrite nth_error_app1 in Hjy by exact Hj.
        specialize (Hle _ _ Hjy). lia.
    + replace (S (length pre)) with (length (pre ++ [x])) by (rewrite length_app; cbn; lia).
      apply IH.
      * rewrite nth_error_app1 by exact Hbi. exact Hb.
      * intros j y Hj. destruct (Nat.lt_ge_cases j (length pre)) as [Hj'|Hj'].
        -- rewrite nth_error_app1 in Hj by exact Hj'. exact (Hle _ _ Hj).
        -- rewrite nth_error_app2 in Hj by exact Hj'.
           destruct (j - length pre)%nat as [|[|k]]; cbn in Hj; try discriminate.
           injection Hj as <-. lia.
      * intros j y Hj Hjy. rewrite nth_error_app1 in Hjy by lia. exact (Hlt _ _ Hj Hjy).
Qed.

(** The end-of-text position [text.argmax(dim=-1)] that [encode_text]
    pools at: on a non-empty token sequence it is a valid position, its
    token id is the largest of the sequence, and every earlier position
    holds a strictly smaller id (the first occurrence of the maximum). *)
Theorem argmax_first_maximum (text : list Z) :
  text <> [] ->
  exists m, nth_error text (argmax text) = Some m /\
    (forall j y, nth_error text j = Some y -> y <= m) /\
    (forall j y, (j < argmax text)%nat -> nth_error text j = Some y -> y < m).
Proof.
  destruct text as [|x xs]; [congruence|]. intros _.
  unfold argmax. change (x :: xs) with ([x] ++ xs).
  apply (argmax_from_spec [x] xs 0 x); [reflexivity| |intros j y Hj; lia].
  intros [|[|j]] y Hj; cbn in Hj; try discriminate. injection Hj as <-. lia.
Qed.

Lemma argmax_first_maximum_witness :
  exists m, nth_error [49406; 320; 1125; 49407; 0; 0]%Z (argmax [49406; 320; 1125; 49407; 0; 0]%Z) = Some m /\
    (forall j y, nth_error [49406; 320; 1125; 49407; 0; 0]%Z j = Some y -> y <= m) /\
    (forall j y, (j < argmax [49406; 320; 1125; 49407; 0; 0]%Z)%nat ->
                 nth_error [49406; 320; 1125; 49407; 0; 0]%Z j = Some y -> y < m).
Proof. apply argmax_first_maximum. discriminate. Defined.

(** ** Slot views *)

Lemma chunks_length {A} (n k : nat) (x : list A) : length (chunks n k x) = k.
Proof. revert x. induction k as [|k IH]; intros x; cbn; [reflexivity|]. by rewrite IH. Qed.

Lemma chunks_rows {A} (n k : nat) (x : list A) :
  (n * k <= length x)%nat -> Forall (fun r => length r = n) (chunks n k x).
Proof.
  revert x. induction k as [|k IH]; intros x Hx; cbn; constructor.
  - rewrite length_firstn. lia.
  - apply IH. rewrite length_skipn. lia.
Qed.

Lemma concat_chunks {A} (n k : nat) (x : list A) :
  length x = (n * k)%nat -> concat (chunks n k x) = x.
Proof.
  revert x. induction k as [|k IH]; intros x Hx; cbn.
  - symmetry. apply length_zero_iff_nil. lia.
  - rewrite IH by (rewrite length_skipn; lia). apply take_drop.
Qed.

Lemma view_slots_chunks (x : list R) (l v : Z) :
  0 <= l -> 0 <= v -> Z.of_nat (length x) = l * v ->
  concat (chunks (Z.to_nat v) (Z.to_nat l) x) = x /\
  length (chunks (Z.to_nat v) (Z.to_nat l) x) = Z.to_nat l /\
  Forall (fun r => Z.of_nat (length r) = v) (chunks (Z.to_nat v) (Z.to_nat l) x).
Proof.
  intros Hl Hv Hlen.
  assert (Hlen' : length x = (Z.to_nat v * Z.to_nat l)%nat) by nia.
  split; [by apply concat_chunks|]. split; [apply chunks_length|].
  eapply Forall_impl; [apply chunks_rows; lia|]. cbn. intros r ->. lia.
Qed.

(** [x.view(..., L, model_V)] and the flattening [out.view(..., -1)] are
    inverse: when the view succeeds, both sizes are given, at most one is
    [-1] and none is below [-1]; it has [l'] slots of [v'] values each with
    [l' * v'] the input length, where [l'] is [L] and [v'] is [model_V]
    unless that size is the inferred [-1]; and concatenating the slots
    gives the input back. *)
Theorem view_slots_flatten (Lo Vo : option Z) (x : list R) (s : list (list R)) :
  Sparo.view_slots Lo Vo x = Ok s ->
  concat s = x /\
  exists l v l' v', Lo = Some l /\ Vo = Some v /\ -1 <= l /\ -1 <= v /\
    ~ (l = -1 /\ v = -1) /\ (l <> -1 -> l' = l) /\ (v <> -1 -> v' = v) /\
    0 <= l' /\ 0 <= v' /\ Z.of_nat (length x) = l' * v' /\
    length s = Z.to_nat l' /\ Forall (fun r => Z.of_nat (length r) = v') s.
Proof.
  unfold Sparo.view_slots. destruct Lo as [l|], Vo as [v|]; try discriminate. cbv zeta.
  destruct (Z.ltb_spec l (-1)), (Z.ltb_spec v (-1)); cbn [orb]; try discriminate.
  destruct (Z.eqb_spec l (-1)), (Z.eqb_spec v (-1)); cbn [andb]; try discriminate.
  - (* L = -1: the slot count is inferred *)
    destruct (Z.ltb_spec 0 v), (Z.eqb_spec (Z.of_nat (length x) mod v) 0);
      cbn; try discriminate.
    intros E. injection E as <-.
    assert (Hn : Z.of_nat (length x) = Z.of_nat (length x) / v * v).
    { rewrite (Z.div_mod (Z.of_nat (length x)) v) at 1 by lia. lia. }
    assert (Hq : 0 <= Z.of_nat (length x) / v) by (apply Z.div_pos; lia).
    destruct (view_slots_chunks x _ v Hq ltac:(lia) Hn) as (Hc & Hl & Hr).
    split; [exact Hc|].
    exists l, v, (Z.of_nat (length x) / v), v. repeat split; try assumption; try lia.
  - (* model_V = -1: the slot width is inferred *)
    destruct (Z.ltb_spec 0 l), (Z.eqb_spec (Z.of_nat (length x) mod l) 0);
      cbn; try discriminate.
    intros E. injection E as <-.
    assert (Hn : Z.of_nat (length x) = l * (Z.of_nat (length x) / l)).
    { rewrite (Z.div_mod (Z.of_nat (length x)) l) at 1 by lia. lia. }
    assert (Hq : 0 <= Z.of_nat (length x) / l) by (apply Z.div_pos; lia).
    destruct (view_slots_chunks x l _ ltac:(lia) Hq Hn) as (Hc & Hl & Hr).
    split; [exact Hc|].
    exists l, v, l, (Z.of_nat (length x) / l). repeat split; try assumption; try lia.
  - destruct (Z.eqb_spec (Z.of_nat (length x)) (l * v)) as [Hn|]; cbn; try discriminate.
    intros E. injection E as <-.
    destruct (view_slots_chunks x l v ltac:(lia) ltac:(lia) Hn) as (Hc & Hl & Hr).
    split; [exact Hc|].
    exists l, v, l, v. repeat split; try assumption; try lia.
Qed.

Lemma view_slots_flatten_witness :
  Sparo.view_slots (Some (-1)) (Some 3) [1; 2; 3; 4; 5; 6]%R = Ok [[1; 2; 3]; [4; 5; 6]]%R /\
  concat [[1; 2; 3]; [4; 5; 6]]%R = [1; 2; 3; 4; 5; 6]%R /\
  exists l v l' v', Some (-1) = Some l /\ Some 3 = Some v /\ -1 <= l /\ -1 <= v /\
    ~ (l = -1 /\ v = -1) /\ (l <> -1 -> l' = l) /\ (v <> -1 -> v' = v) /\
    0 <= l' /\ 0 <= v' /\ Z.of_nat (length [1; 2; 3; 4; 5; 6]%R) = l' * v' /\
    length [[1; 2; 3]; [4; 5; 6]]%R = Z.to_nat l' /\
    Forall (fun r => Z.of_nat (length r) = v') [[1; 2; 3]; [4; 5; 6]]%R.
Proof.
  split; [reflexivity|].
  apply (view_slots_flatten (Some (-1)) (Some 3) [1; 2; 3; 4; 5; 6]%R). reflexivity.
Defined.

(** ** The [sparo_type] tag *)

Lemma split_on_nonempty (c : ascii) (s : string) : Sparo.split_on c s <> [].
Proof.
  destruct s as [|a s]; cbn; [discriminate|].
  destruct (Ascii.eqb a c); [discriminate|]. destruct (Sparo.split_on c s); discriminate.
Qed.

Lemma split_on_single (c : ascii) (s n : string) :
  Sparo.split_on c s = [n] -> s = n /\ ~ In c (String.list_ascii_of_string n).
Proof.
  revert n. induction s as [|a s IH]; intros n; cbn.
  - intros E. injection E as <-. cbn. tauto.
  - destruct (Ascii.eqb_spec a c) as [->|Hac].
    + intros E. injection E as _ E. exfalso. exact (split_on_nonempty c s E).
    + destruct (Sparo.split_on c s) as [|p ps] eqn:Hs; [exfalso; exact (split_on_nonempty c s Hs)|].
      intros E. injection E as <- ->. destruct (IH p eq_refl) as [-> Hp].
      split; [reflexivity|]. cbn. intros [->|H]; tauto.
Qed.

Lemma split_on_pair (c : ascii) (s r n : string) :
  Sparo.split_on c s = [r; n] ->
  s = String.append r (String c n) /\
  ~ In c (String.list_ascii_of_string r) /\ ~ In c (String.list_ascii_of_string n).
Proof.
  revert r. induction s as [|a s IH]; intros r; cbn; [discriminate|].
  destruct (Ascii.eqb_spec a c) as [->|Hac].
  - intros E. injection E as <- Hs. destruct (split_on_single c s n Hs) as [-> Hn].
    cbn. tauto.
  - destruct (Sparo.split_on c s) as [|p ps] eqn:Hs; [discriminate|].
    intros E. injection E as <- ->. destruct (IH p eq_refl) as (-> & Hp & Hn).
    cbn. split; [reflexivity|]. split; [intros [->|H]; tauto | exact Hn].
Qed.

Lemma split_on_no_sep (c : ascii) (s : string) :
  ~ In c (String.list_ascii_of_string s) -> Sparo.split_on c s = [s].
Proof.
  induction s as [|a s IH]; cbn; [reflexivity|]. intros Hn.
  destruct (Ascii.eqb_spec a c) as [->|Hac]; [tauto|]. rewrite IH by tauto. reflexivity.
Qed.

Lemma split_on_app_sep (c : ascii) (r n : string) :
  ~ In c (String.list_ascii_of_string r) ->
  Sparo.split_on c (String.append r (String c n)) = r :: Sparo.split_on c n.
Proof.
  induction r as [|a r IH]; intros Hn; simpl in *.
  - destruct (Ascii.eqb_spec c c) as [_|Hcc]; [reflexivity | congruence].
  - destruct (Ascii.eqb_spec a c) as [->|Hac]; [tauto|]. rewrite IH by tauto. reflexivity.
Qed.

(** [rep_type, norm_type = self.sparo_type.split(":")] succeeds exactly on
    the tags with one colon, and it splits ["rep:norm"] back into [rep]
    and [norm]; any other tag raises. *)
Theorem parse_sparo_type_spec (t r n : string) :
  Sparo.parse_sparo_type t = Ok (r, n) <->
  t = String.append r (String.append ":" n) /\
  ~ In ":"%char (String.list_ascii_of_string r) /\ ~ In ":"%char (String.list_ascii_of_string n).
Proof.
  unfold Sparo.parse_sparo_type. split.
  - destruct (Sparo.split_on ":"%char t) as [|r' [|n' [|]]] eqn:Hs; try discriminate.
    intros E. injection E as -> ->. exact (split_on_pair _ _ _ _ Hs).
  - intros (-> & Hr & Hn). change (String.append ":" n) with (String ":"%char n).
    rewrite (split_on_app_sep ":"%char r n Hr), (split_on_no_sep ":"%char n Hn). reflexivity.
Qed.

Lemma parse_sparo_type_spec_witness :
  Sparo.parse_sparo_type "sem:softmax" = Ok ("sem", "softmax")%string.
Proof.
  apply (proj2 (parse_sparo_type_spec "sem:softmax" "sem" "softmax")).
  split; [reflexivity|]. cbn. split; intuition discriminate.
Defined.

(** ** Shape of the SPARO projection *)

Lemma softmax_length (v : list R) : length (Sparo.softmax v) = length v.
Proof. unfold Sparo.softmax. cbv zeta. apply length_map. Qed.

Lemma normalize_length (v : list R) : length (Sparo.normalize v) = length v.
Proof. unfold Sparo.normalize. cbv zeta. apply length_map. Qed.

Lemma sparo_weights_shape (Lz : Z) (rep nt : string) (rows vals : list (list R)) (w : list R)
    (m : nat) :
  Sparo.sparo_weights Lz rep nt rows = Ok (w, vals) ->
  Forall (fun r => length r = m) rows ->
  length w = length rows /\ length vals = length rows /\
  Forall (fun r => length r =
            (if String.eqb nt "sqrtsoftmax" || String.eqb nt "softmax" then m - 1 else m)%nat)
         vals.
Proof.
  intros E Hrows. unfold Sparo.sparo_weights in E.
  destruct (String.eqb nt "sqrtsoftmax") eqn:H1; cbn [orb].
  { injection E as <- <-. unfold Sparo.drop_first_channel, Sparo.first_channel.
    rewrite !length_map, softmax_length, length_map. split; [reflexivity|].
    split; [reflexivity|]. apply Forall_map. eapply Forall_impl; [exact Hrows|].
    intros r Hr. cbn. rewrite length_drop, Hr. reflexivity. }
  destruct (String.eqb nt "softmax") eqn:H2.
  { injection E as <- <-. unfold Sparo.drop_first_channel, Sparo.first_channel.
    rewrite length_map, normalize_length, softmax_length, !length_map.
    split; [reflexivity|]. split; [reflexivity|]. apply Forall_map.
    eapply Forall_impl; [exact Hrows|]. intros r Hr. cbn. rewrite length_drop, Hr. reflexivity. }
  destruct (String.eqb nt "norm").
  { destruct (String.eqb rep "cont"); [|destruct (String.eqb rep "sqrtsem")];
      try discriminate; injection E as <- <-; rewrite !length_map; auto. }
  destruct (String.eqb nt "const"); [|discriminate].
  injection E as <- <-. rewrite length_map. auto.
Qed.

Lemma sparo_rep_shape (rep : string) (rows reps : list (list R)) (k : nat) :
  Sparo.sparo_rep rep rows = Ok reps ->
  Forall (fun r => length r = k) rows ->
  length reps = length rows /\ Forall (fun r => length r = k) reps.
Proof.
  intros E Hrows. unfold Sparo.sparo_rep in E.
  destruct (String.eqb rep "cont"); [|destruct (String.eqb rep "sqrtsem");
    [|destruct (String.eqb rep "sem")]]; try discriminate;
    injection E as <-; rewrite length_map; split; try reflexivity;
    apply Forall_map; eapply Forall_impl; try exact Hrows; intros r Hr; cbn;
    rewrite ?length_map, ?normalize_length, ?softmax_length; exact Hr.
Qed.

Lemma scale_slots_shape (reps : list (list R)) (w : list R) (k : nat) :
  length reps = length w ->
  Forall (fun r => length r = k) reps ->
  length (Sparo.scale_slots reps w) = length reps /\
  Forall (fun r => length r = k) (Sparo.scale_slots reps w).
Proof.
  unfold Sparo.scale_slots. revert w.
  induction reps as [|r reps IH]; intros [|a w] Hlen Hk; cbn in *; try discriminate.
  - split; [reflexivity | constructor].
  - inversion Hk as [|? ? Hr Hk']; subst.
    destruct (IH w ltac:(lia) Hk') as [IH1 IH2].
    split; [by rewrite IH1|]. constructor; [by rewrite length_map|exact IH2].
Qed.

Lemma sparo_weights_ok (Lz : Z) (rep nt : string) (rows : list (list R)) :
  In rep ["cont"; "sqrtsem"; "sem"]%string ->
  In nt ["sqrtsoftmax"; "softmax"; "const"; "norm"]%string ->
  (rep, nt) <> ("sem", "norm")%string ->
  exists w vals, Sparo.sparo_weights Lz rep nt rows = Ok (w, vals).
Proof.
  intros Hr Hn Hne.
  destruct Hr as [<-|[<-|[<-|[]]]]; destruct Hn as [<-|[<-|[<-|[<-|[]]]]];
    try (exfalso; apply Hne; reflexivity); eexists _, _; reflexivity.
Qed.

Lemma sparo_rep_ok (rep : string) (rows : list (list R)) :
  In rep ["cont"; "sqrtsem"; "sem"]%string -> exists reps, Sparo.sparo_rep rep rows = Ok reps.
Proof. intros [<-|[<-|[<-|[]]]]; eexists; reflexivity. Qed.

Lemma sparo_tag_parts (rep nt : string) :
  In rep ["cont"; "sqrtsem"; "sem"]%string ->
  In nt ["sqrtsoftmax"; "softmax"; "const"; "norm"]%string ->
  Sparo.parse_sparo_type (String.append rep (String.append ":" nt)) = Ok (rep, nt) /\
  endswith (String.append rep (String.append ":" nt)) "softmax" =
    (String.eqb nt "sqrtsoftmax" || String.eqb nt "softmax").
Proof.
  intros Hr Hn.
  destruct Hr as [<-|[<-|[<-|[]]]]; destruct Hn as [<-|[<-|[<-|[<-|[]]]]];
    split; reflexivity.
Qed.

Lemma CLIP_init_model_V (a : CLIPArgs) (ev : list build_event) (clip : CLIP) :
  CLIP_init a = (ev, Ok clip) ->
  L clip = a_L a /\ sparo_type clip = a_sparo_type a /\
  model_V clip =
    (if negb (a_use_sparo a) || negb (endswith (a_sparo_type a) "softmax") then a_V a
     else (fun v => v + 1) <$> a_V a).
Proof.
  unfold CLIP_init. destruct (a_use_sparo a && a_use_codebook a); [discriminate|].
  destruct (negb (a_use_sparo a) || negb (endswith (a_sparo_type a) "softmax")).
  2: destruct (a_V a) as [v|]; [|discriminate].
  all: destruct (_build_vision_tower _ _ _ _ _ _ _ _ _); [|discriminate];
       destruct (_build_text_tower _ _ _ _ _ _ _ _ _); [|discriminate];
       intros E; injection E as _ <-; cbn; auto.
Qed.

(** Composing [CLIP.__init__] with [_project_for_sparo]: for every tag
    the projection accepts, a SPARO model built with [L] slots and [V]
    values per slot turns a tower output of [L * model_V] values into
    exactly [L] slots of [V] values each. The extra channel that
    [__init__] adds to [model_V] for the tags ending in ["softmax"] is
    the one the weighting consumes. *)
Theorem sparo_projection_slot_shape (a : CLIPArgs) (ev : list build_event) (clip : CLIP)
    (l v : Z) (rep nt : string) (x : list R) :
  CLIP_init a = (ev, Ok clip) -> a_use_sparo a = true ->
  a_L a = Some l -> a_V a = Some v -> 0 <= l -> 0 <= v ->
  a_sparo_type a = String.append rep (String.append ":" nt) ->
  In rep ["cont"; "sqrtsem"; "sem"]%string ->
  In nt ["sqrtsoftmax"; "softmax"; "const"; "norm"]%string ->
  (rep, nt) <> ("sem", "norm")%string ->
  (exists mv, model_V clip = Some mv /\ Z.of_nat (length x) = l * mv) ->
  exists out, Sparo._project_for_sparo clip x = Ok out /\
    length out = Z.to_nat l /\ Forall (fun r => length r = Z.to_nat v) out.
Proof.
  intros Hinit Hs HL HV Hl Hv Ht Hr Hn Hne (mv & Hmv & Hlen).
  destruct (CLIP_init_model_V a ev clip Hinit) as (HLc & Htc & HVc).
  destruct (sparo_tag_parts rep nt Hr Hn) as [Hparse Hend].
  rewrite Hs, Ht, Hend, HV in HVc. cbn [negb orb] in HVc.
  set (soft := (String.eqb nt "sqrtsoftmax" || String.eqb nt "softmax")) in *.
  assert (Hmv' : mv = if soft then v + 1 else v)
    by (destruct soft; cbn in HVc; congruence).
  assert (Hmv0 : 0 <= mv) by (destruct soft; lia).
  unfold Sparo._project_for_sparo.
  rewrite (view_slots_ok _ _ l mv x (eq_trans HLc HL) Hmv Hl Hmv0 Hlen).
  rewrite Htc, Ht, Hparse, HLc, HL. cbn [mbind result_bind].
  set (rows := chunks (Z.to_nat mv) (Z.to_nat l) x).
  assert (Hrows : Forall (fun r => length r = Z.to_nat mv) rows) by (apply chunks_rows; lia).
  assert (Hnrows : length rows = Z.to_nat l) by apply chunks_length.
  destruct (sparo_weights_ok l rep nt rows Hr Hn Hne) as (w & vals & Ew).
  rewrite Ew. cbn [mbind result_bind].
  destruct (sparo_weights_shape l rep nt rows vals w _ Ew Hrows) as (Hw & Hvals & Hvk).
  fold soft in Hvk.
  destruct (sparo_rep_ok rep vals Hr) as (reps & Er). rewrite Er. cbn [mbind result_bind].
  destruct (sparo_rep_shape rep vals reps _ Er Hvk) as (Hreps & Hrk).
  destruct (scale_slots_shape reps w _ ltac:(lia) Hrk) as (Hout & Hok).
  eexists. split; [reflexivity|]. split; [lia|].
  eapply Forall_impl; [exact Hok|]. intros r ->. destruct soft; lia.
Qed.

Lemma sparo_projection_slot_shape_witness :
  exists ev clip out,
    CLIP_init (sample_sparo_args 2 1 "cont:softmax") = (ev, Ok clip) /\
    model_V clip = Some 2 /\
    Sparo._project_for_sparo clip [1; 2; 3; 4]%R = Ok out /\
    length out = 2%nat /\ Forall (fun r => length r = 1%nat) out.
Proof.
  case_eq (CLIP_init (sample_sparo_args 2 1 "cont:softmax")); intros ev [clip|e] E;
    [|vm_compute in E; discriminate].
  assert (HmV : model_V clip = Some 2).
  { pose proof (CLIP_init_model_V _ _ _ E) as (_ & _ & H). rewrite H. reflexivity. }
  destruct (sparo_projection_slot_shape (sample_sparo_args 2 1 "cont:softmax") ev clip 2 1
              "cont" "softmax" [1; 2; 3; 4]%R E eq_refl eq_refl eq_refl
              ltac:(lia) ltac:(lia) eq_refl ltac:(cbn; tauto) ltac:(cbn; tauto)
              ltac:(intros H; discriminate H) ltac:(exists 2; split; [exact HmV | reflexivity]))
    as (out & Hout & Hl & Hr).
  exists ev, clip, out. repeat split; assumption.
Defined.

(** ** Norm of the SPARO projection *)

Section UnitNorm.
Local Open Scope R_scope.

Lemma Rsum_app (a b : list R) : Sparo.Rsum (a ++ b) = Sparo.Rsum a + Sparo.Rsum b.
Proof. induction a as [|x a IH]; cbn [app]; rewrite ?Rsum_nil, ?Rsum_cons; [ring|]. rewrite IH. ring. Qed.

Lemma Rsum_sq_nonneg (r : list R) : 0 <= Sparo.Rsum (map (fun a => a * a) r).
Proof.
  apply Rsum_nonneg, List.Forall_forall. intros y Hy.
  apply in_map_iff in Hy as (z & <- & _). nra.
Qed.

Lemma l2norm_sq (r : list R) : Sparo.l2norm r * Sparo.l2norm r = Sparo.Rsum (map (fun a => a * a) r).
Proof. unfold Sparo.l2norm. apply sqrt_sqrt, Rsum_sq_nonneg. Qed.

Lemma l2norm_one_iff (r : list R) : Sparo.l2norm r = 1 <-> Sparo.Rsum (map (fun a => a * a) r) = 1.
Proof.
  split.
  - intros H. rewrite <- l2norm_sq, H. ring.
  - intros H. unfold Sparo.l2norm. rewrite H. apply sqrt_1.
Qed.

Lemma Rsum_sq_concat (rows : list (list R)) :
  Sparo.Rsum (map (fun a => a * a) (concat rows)) =
  Sparo.Rsum (map (fun r => Sparo.Rsum (map (fun a => a * a) r)) rows).
Proof.
  induction rows as [|r rows IH]; cbn [concat map]; [reflexivity|].
  rewrite map_app, Rsum_app, Rsum_cons, IH. reflexivity.
Qed.

Lemma Rsum_sq_scale (r : list R) (c : R) :
  Sparo.Rsum (map (fun a => a * a) (map (fun a => a * c) r)) =
  c * c * Sparo.Rsum (map (fun a => a * a) r).
Proof.
  induction r as [|a r IH]; cbn [map]; rewrite ?Rsum_nil, ?Rsum_cons; [ring|].
  rewrite IH. ring.
Qed.

(** Weighting unit-norm slots by [w] gives a vector of the norm of [w]. *)
Lemma scale_slots_sq (reps : list (list R)) (w : list R) :
  length reps = length w ->
  Forall (fun r => Sparo.Rsum (map (fun a => a * a) r) = 1) reps ->
  Sparo.Rsum (map (fun a => a * a) (concat (Sparo.scale_slots reps w))) =
  Sparo.Rsum (map (fun a => a * a) w).
Proof.
  unfold Sparo.scale_slots. revert w.
  induction reps as [|r reps IH]; intros [|c w] Hlen Hr; cbn in Hlen; try discriminate;
    [reflexivity|].
  inversion Hr as [|? ? Hr1 Hr']; subst.
  cbn [zip_with concat map]. rewrite map_app, Rsum_app, Rsum_sq_scale, Hr1, Rsum_cons.
  rewrite IH by (auto; lia). ring.
Qed.

Lemma softmax_nonneg (f : list R) : Forall (fun a => 0 <= a) (Sparo.softmax f).
Proof.
  destruct f as [|b f]; [constructor|].
  pose proof (Rsum_exp_pos (b :: f) ltac:(discriminate)) as Hz.
  unfold Sparo.softmax. cbv zeta. apply List.Forall_forall. intros y Hy.
  apply in_map_iff in Hy as (z & <- & _).
  apply Rlt_le, Rdiv_lt_0_compat; [apply exp_pos | exact Hz].
Qed.

Lemma Rsum_sq_sqrt (l : list R) :
  Forall (fun a => 0 <= a) l ->
  Sparo.Rsum (map (fun a => a * a) (map sqrt l)) = Sparo.Rsum l.
Proof.
  induction 1 as [|a l Ha _ IH]; [reflexivity|]. cbn [map].
  rewrite !Rsum_cons, IH, sqrt_sqrt by exact Ha. reflexivity.
Qed.

Lemma sqrt_softmax_unit (f : list R) :
  f <> [] -> Sparo.Rsum (map (fun a => a * a) (map sqrt (Sparo.softmax f))) = 1.
Proof. intros Hf. rewrite Rsum_sq_sqrt by apply softmax_nonneg. by apply Rsum_softmax. Qed.

Lemma Rsum_const (A : Type) (xs : list A) (c : R) :
  Sparo.Rsum (map (fun _ => c) xs) = INR (length xs) * c.
Proof.
  induction xs as [|x xs IH]; cbn [map length]; rewrite ?Rsum_nil, ?Rsum_cons; [cbn; ring|].
  rewrite IH, S_INR. ring.
Qed.

Lemma Rsum_pos (l : list R) : l <> [] -> Forall (fun a => 0 < a) l -> 0 < Sparo.Rsum l.
Proof.
  intros Hl Hpos. destruct Hpos as [|a l Ha Hl']; [congruence|].
  rewrite Rsum_cons.
  assert (0 <= Sparo.Rsum l)
    by (apply Rsum_nonneg; eapply Forall_impl; [exact Hl'|]; intros; cbn; lra).
  lra.
Qed.

Lemma eps_pos : 0 < Sparo.eps.
Proof. unfold Sparo.eps. apply Rinv_0_lt_compat, pow_lt. lra. Qed.

Lemma l2norm_ge_eps_sq (r : list R) :
  Sparo.eps <= Sparo.l2norm r -> 0 < Sparo.Rsum (map (fun a => a * a) r).
Proof.
  intros H. rewrite <- l2norm_sq. pose proof eps_pos. nra.
Qed.

Lemma exp_half_sq_pos (r : list R) :
  r <> [] -> 0 < Sparo.Rsum (map (fun a => a * a) (map (fun a => exp (a / 2)) r)).
Proof.
  intros Hr. apply Rsum_pos.
  - destruct r; [congruence | discriminate].
  - apply List.Forall_forall. intros y Hy. rewrite map_map in Hy.
    apply in_map_iff in Hy as (z & <- & _). pose proof (exp_pos (z / 2)). nra.
Qed.

Lemma Rsum_map_div_rows (f : list R -> R) (c : R) (l : list (list R)) :
  Sparo.Rsum (map (fun a => f a / c) l) = Sparo.Rsum (map f l) / c.
Proof.
  induction l as [|a l IH]; cbn [map]; rewrite ?Rsum_nil, ?Rsum_cons; [unfold Rdiv; ring|].
  rewrite IH. unfold Rdiv. ring.
Qed.

(** The ["norm"] weights [||row|| / ||all rows||] have unit norm as soon
    as the rows are not all zero. *)
Lemma norm_weights_unit (ni : list (list R)) :
  0 < Sparo.Rsum (map (fun a => a * a) (concat ni)) ->
  Sparo.l2norm (map (fun row => Sparo.l2norm row / Sparo.l2norm (concat ni)) ni) = 1.
Proof.
  intros Hpos. apply l2norm_one_iff.
  set (F := Sparo.l2norm (concat ni)).
  assert (HF : F * F = Sparo.Rsum (map (fun a => a * a) (concat ni))) by apply l2norm_sq.
  assert (HF0 : F <> 0) by (intros E; rewrite E in HF; lra).
  rewrite map_map.
  rewrite (map_ext _ (fun row : list R => Sparo.Rsum (map (fun a => a * a) row) / (F * F)))
    by (intros row; rewrite <- l2norm_sq; field; exact HF0).
  rewrite (Rsum_map_div_rows (fun row : list R => Sparo.Rsum (map (fun a => a * a) row))).
  rewrite <- Rsum_sq_concat, <- HF. field. exact HF0.
Qed.

Lemma sparo_weights_vals (Lz : Z) (rep nt : string) (rows vals : list (list R)) (w : list R) :
  Sparo.sparo_weights Lz rep nt rows = Ok (w, vals) ->
  vals = if String.eqb nt "sqrtsoftmax" || String.eqb nt "softmax"
         then Sparo.drop_first_channel rows else rows.
Proof.
  unfold Sparo.sparo_weights. intros E.
  destruct (String.eqb nt "sqrtsoftmax"); [injection E as _ <-; reflexivity|].
  destruct (String.eqb nt "softmax"); [injection E as _ <-; reflexivity|].
  cbn [orb].
  destruct (String.eqb nt "norm").
  { destruct (String.eqb rep "cont"); [|destruct (String.eqb rep "sqrtsem")];
      try discriminate; injection E as _ <-; reflexivity. }
  destruct (String.eqb nt "const"); [|discriminate]. injection E as _ <-. reflexivity.
Qed.

(** Every accepted weighting gives a weight vector of unit norm: the
    slots are non-empty, at most [int64]-many, each slot row is
    non-empty and, for ["cont:norm"], no slot is below [eps]. *)
Lemma sparo_weights_unit (Lz : Z) (rep nt : string) (rows vals : list (list R)) (w : list R) :
  Sparo.sparo_weights Lz rep nt rows = Ok (w, vals) ->
  rows <> [] -> Z.of_nat (length rows) = Lz -> (Z.of_nat (length rows) < 2 ^ 63)%Z ->
  Forall (fun r => r <> []) rows ->
  (rep = "cont"%string -> nt = "norm"%string -> Forall (fun r => Sparo.eps <= Sparo.l2norm r) rows) ->
  Sparo.l2norm w = 1.
Proof.
  intros E Hne HLz Hsz Hrows Hcont. unfold Sparo.sparo_weights in E.
  assert (Hf : Sparo.first_channel rows <> []).
  { unfold Sparo.first_channel. destruct rows; [congruence | discriminate]. }
  destruct (String.eqb nt "sqrtsoftmax") eqn:H1.
  { injection E as <- _. apply l2norm_one_iff, sqrt_softmax_unit, Hf. }
  destruct (String.eqb nt "softmax") eqn:H2.
  { injection E as <- _. apply l2norm_normalize_unit, l2norm_softmax_ge; [exact Hf|].
    unfold Sparo.first_channel. rewrite length_map. by apply int64_size_bound. }
  destruct (String.eqb nt "norm") eqn:H3.
  { apply String.eqb_eq in H3. subst nt.
    destruct (String.eqb rep "cont") eqn:H4.
    - injection E as <- _. apply String.eqb_eq in H4.
      apply norm_weights_unit. rewrite Rsum_sq_concat.
      apply Rsum_pos; [destruct rows; [congruence | discriminate]|].
      apply Forall_map. eapply Forall_impl; [exact (Hcont H4 eq_refl)|].
      intros r Hr. by apply l2norm_ge_eps_sq.
    - destruct (String.eqb rep "sqrtsem"); [|discriminate]. injection E as <- _.
      apply norm_weights_unit. rewrite Rsum_sq_concat.
      apply Rsum_pos; [destruct rows; [congruence | discriminate]|].
      apply Forall_map, Forall_map. eapply Forall_impl; [exact Hrows|].
      intros r Hr. by apply exp_half_sq_pos. }
  destruct (String.eqb nt "const"); [|discriminate]. injection E as <- _.
  apply l2norm_one_iff. rewrite map_map, Rsum_const.
  assert (HL : INR (length rows) = IZR Lz) by (rewrite INR_IZR_INZ, HLz; reflexivity).
  assert (HL0 : 0 < IZR Lz).
  { rewrite <- HL. apply lt_0_INR. destruct rows; [congruence | cbn; lia]. }
  rewrite sqrt_sqrt by (apply Rlt_le, Rdiv_lt_0_compat; lra).
  rewrite HL. field. lra.
Qed.

(** Every accepted representation gives unit-norm slot rows, for
    non-empty rows of at most [int64]-many values, none of them below
    [eps] for ["cont"]. *)
Lemma sparo_rep_unit (rep : string) (vals reps : list (list R)) :
  Sparo.sparo_rep rep vals = Ok reps ->
  Forall (fun r => r <> [] /\ (Z.of_nat (length r) < 2 ^ 63)%Z) vals ->
  (rep = "cont"%string -> Forall (fun r => Sparo.eps <= Sparo.l2norm r) vals) ->
  Forall (fun r => Sparo.Rsum (map (fun a => a * a) r) = 1) reps.
Proof.
  intros E Hv Hcont. unfold Sparo.sparo_rep in E.
  destruct (String.eqb rep "cont") eqn:H1.
  { injection E as <-. apply String.eqb_eq in H1. apply Forall_map.
    eapply Forall_impl; [exact (Hcont H1)|]. intros r Hr.
    by apply l2norm_one_iff, l2norm_normalize_unit. }
  destruct (String.eqb rep "sqrtsem").
  { injection E as <-. apply Forall_map. eapply Forall_impl; [exact Hv|].
    intros r [Hr _]. by apply sqrt_softmax_unit. }
  destruct (String.eqb rep "sem"); [|discriminate].
  injection E as <-. apply Forall_map. eapply Forall_impl; [exact Hv|].
  intros r [Hr Hs]. apply l2norm_one_iff, l2norm_normalize_unit, l2norm_softmax_ge; [exact Hr|].
  by apply int64_size_bound.
Qed.

End UnitNorm.

Lemma project_for_sparo_unit (self : CLIP) (l mv : Z) (rep nt : string) (x : list R) :
  L self = Some l -> model_V self = Some mv ->
  sparo_type self = String.append rep (String.append ":" nt) ->
  In rep ["cont"; "sqrtsem"; "sem"]%string ->
  In nt ["sqrtsoftmax"; "softmax"; "const"; "norm"]%string ->
  (rep, nt) <> ("sem", "norm")%string ->
  1 <= l -> (if String.eqb nt "sqrtsoftmax" || String.eqb nt "softmax" then 2 else 1) <= mv ->
  Z.of_nat (length x) = l * mv -> l * mv < 2 ^ 63 ->
  (rep = "cont"%string ->
   Forall (fun r => (Sparo.eps <= Sparo.l2norm r)%R)
     (if String.eqb nt "sqrtsoftmax" || String.eqb nt "softmax"
      then Sparo.drop_first_channel (chunks (Z.to_nat mv) (Z.to_nat l) x)
      else chunks (Z.to_nat mv) (Z.to_nat l) x)) ->
  exists out, Sparo._project_for_sparo self x = Ok out /\ Sparo.l2norm (concat out) = 1%R.
Proof.
  intros HL HV Ht Hr Hn Hne Hl Hmv Hlen Hsz Hcont.
  destruct (sparo_tag_parts rep nt Hr Hn) as [Hparse _].
  set (soft := (String.eqb nt "sqrtsoftmax" || String.eqb nt "softmax")) in *.
  assert (Hmv1 : 1 <= mv) by (destruct soft; lia).
  assert (Hlmv : l <= l * mv) by nia.
  assert (Hmvl : mv <= l * mv) by nia.
  unfold Sparo._project_for_sparo.
  rewrite (view_slots_ok _ _ l mv x HL HV ltac:(lia) ltac:(lia) Hlen).
  rewrite Ht, Hparse, HL. cbn [mbind result_bind].
  set (rows := chunks (Z.to_nat mv) (Z.to_nat l) x) in *.
  assert (Hrows : Forall (fun r => length r = Z.to_nat mv) rows) by (apply chunks_rows; lia).
  assert (Hnrows : length rows = Z.to_nat l) by apply chunks_length.
  destruct (sparo_weights_ok l rep nt rows Hr Hn Hne) as (w & vals & Ew).
  rewrite Ew. cbn [mbind result_bind].
  pose proof (sparo_weights_vals l rep nt rows vals w Ew) as Hvals. fold soft in Hvals.
  destruct (sparo_weights_shape l rep nt rows vals w _ Ew Hrows) as (Hw & Hvl & Hvk).
  fold soft in Hvk.
  assert (Hwu : Sparo.l2norm w = 1%R).
  { apply (sparo_weights_unit l rep nt rows vals w Ew).
    - intros E. rewrite E in Hnrows. cbn in Hnrows. lia.
    - lia.
    - lia.
    - eapply Forall_impl; [exact Hrows|]. intros r Hr' E. rewrite E in Hr'. cbn in Hr'. lia.
    - intros Hc Hn'. specialize (Hcont Hc). subst nt. exact Hcont. }
  destruct (sparo_rep_ok rep vals Hr) as (reps & Er). rewrite Er. cbn [mbind result_bind].
  destruct (sparo_rep_shape rep vals reps _ Er Hvk) as (Hreps & _).
  assert (Hru : Forall (fun r => Sparo.Rsum (map (fun a => (a * a)%R) r) = 1%R) reps).
  { apply (sparo_rep_unit rep vals reps Er).
    - eapply Forall_impl; [exact Hvk|]. intros r Hr'. split.
      + intros E. rewrite E in Hr'. cbn in Hr'. destruct soft; lia.
      + rewrite Hr'. destruct soft; lia.
    - rewrite Hvals. exact Hcont. }
  eexists. split; [reflexivity|].
  apply l2norm_one_iff. rewrite scale_slots_sq by (auto; lia).
  by apply l2norm_one_iff.
Qed.

(** [_project_for_sparo] returns a unit vector: for every tag it accepts,
    the flattened [L] weighted slots have L2 norm exactly 1, provided
    there is at least one slot, every slot row that reaches the
    representation is non-empty (the weight channel apart), the tensor
    is [int64]-sized and, for ["cont"] representations, no slot row is
    below the [eps] of [F.normalize]. *)
Theorem sparo_projection_unit_norm (self : CLIP) (l mv : Z) (rep nt : string) (x : list R) :
  L self = Some l -> model_V self = Some mv ->
  sparo_type self = String.append rep (String.append ":" nt) ->
  In rep ["cont"; "sqrtsem"; "sem"]%string ->
  In nt ["sqrtsoftmax"; "softmax"; "const"; "norm"]%string ->
  (rep, nt) <> ("sem", "norm")%string ->
  1 <= l -> (if String.eqb nt "sqrtsoftmax" || String.eqb nt "softmax" then 2 else 1) <= mv ->
  Z.of_nat (length x) = l * mv -> l * mv < 2 ^ 63 ->
  (rep = "cont"%string ->
   Forall (fun r => (Sparo.eps <= Sparo.l2norm r)%R)
     (if String.eqb nt "sqrtsoftmax" || String.eqb nt "softmax"
      then Sparo.drop_first_channel (chunks (Z.to_nat mv) (Z.to_nat l) x)
      else chunks (Z.to_nat mv) (Z.to_nat l) x)) ->
  exists out, Sparo._project_for_sparo self x = Ok out /\ Sparo.l2norm (concat out) = 1%R.
Proof. exact (project_for_sparo_unit self l mv rep nt x). Qed.

Lemma sparo_projection_unit_norm_witness :
  exists out, Sparo._project_for_sparo (sample_clip "sem:softmax") [1; 2; 3; 4]%R = Ok out /\
    Sparo.l2norm (concat out) = 1%R.
Proof.
  apply (sparo_projection_unit_norm (sample_clip "sem:softmax") 2 2 "sem" "softmax");
    try reflexivity; try (cbn; tauto); try lia.
  - intros H. discriminate H.
  - intros H. discriminate H.
Defined.

(** ** Inferring the grid from a position table *)

(** [round((n - 1) ** 0.5)] raises [TypeError] on an empty table, and
    otherwise returns the integer nearest to [sqrt (n - 1)], i.e. [r] with
    [|2r - 2 sqrt (n - 1)| < 1]; on a table of [g * g + 1] rows it gives
    [g] back. *)
Theorem round_sqrt_pred_nearest :
  round_sqrt_pred 0%nat = Err TypeError /\
  (forall m : nat, exists r : nat, round_sqrt_pred (S m) = Ok r /\
     (4 * m < (2 * r + 1) * (2 * r + 1))%nat /\
     ((r = 0 /\ m = 0) \/ (1 <= r /\ (2 * r - 1) * (2 * r - 1) < 4 * m))%nat) /\
  (forall g : nat, round_sqrt_pred (S (g * g)) = Ok g).
Proof.
  split; [reflexivity|]. split.
  - intros m. cbn [round_sqrt_pred]. eexists. split; [reflexivity|].
    destruct (Nat.sqrt_spec' m) as [Hlo Hhi]. set (s := Nat.sqrt m) in *.
    destruct (Nat.ltb s (m - s * s)) eqn:E.
    + apply Nat.ltb_lt in E. split; [nia|]. right. split; [lia|]. nia.
    + apply Nat.ltb_ge in E. split; [nia|].
      destruct s as [|s']; [left; split; [reflexivity|]; nia|].
      right. split; [lia|]. nia.
  - intros g. cbn [round_sqrt_pred]. rewrite Nat.sqrt_square.
    replace (g * g - g * g)%nat with 0%nat by lia. reflexivity.
Qed.

(** The ResNet branch of the legacy adapter (no [visual.proj]) only
    accepts an attention-pool table of [w * w + 1] rows, and then infers a
    [32 w] image size, no patch size and a four-stage layer tuple. *)
Theorem openai_resnet_shape_inference (d : gmap string Tensor) (cfg : CLIPVisionCfg) :
  d !! "visual.proj" = None ->
  openai_vision_cfg d = Ok cfg ->
  exists ap w, d !! "visual.attnpool.positional_embedding" = Some ap /\
    head (shape ap) = Some (w * w + 1)%nat /\
    vc_image_size cfg = Z.of_nat (w * 32) /\ vc_patch_size cfg = None /\
    exists c1 c2 c3 c4, vc_layers cfg = LayersTuple c1 c2 c3 c4.
Proof.
  intros Hproj E. unfold openai_vision_cfg in E.
  rewrite bool_decide_eq_false_2 in E by (rewrite Hproj; apply is_Some_None).
  repeat (match type of E with
          | ?x ≫= _ = _ => destruct x eqn:?; cbn in E; try discriminate
          end).
  injection E as <-.
  match goal with
  | H : assert_ _ = Ok _ |- _ => unfold assert_ in H; destruct (Nat.eqb _ _) eqn:Hq;
                                  [clear H | discriminate H]
  end.
  apply Nat.eqb_eq in Hq.
  match goal with
  | H : shape_of d "visual.attnpool.positional_embedding" = Ok _ |- _ =>
      unfold shape_of in H; destruct (d !! "visual.attnpool.positional_embedding") as [ap|] eqn:Hap;
        [injection H as Hsh | discriminate H]
  end.
  refine (ex_intro _ ap (ex_intro _ _ (conj eq_refl (conj _ (conj eq_refl (conj eq_refl _)))))).
  - rewrite Hsh. match goal with
                 | H : dim0 ?sh = Ok _ |- _ =>
                     destruct sh; cbn in H; [discriminate H | injection H as <-]
                 end.
    cbn. f_equal. symmetry; exact Hq.
  - eexists _, _, _, _. reflexivity.
Qed.

Lemma openai_resnet_shape_inference_witness :
  exists cfg, sample_resnet_dict !! "visual.proj" = None /\
    openai_vision_cfg sample_resnet_dict = Ok cfg /\
    exists ap w, sample_resnet_dict !! "visual.attnpool.positional_embedding" = Some ap /\
      head (shape ap) = Some (w * w + 1)%nat /\
      vc_image_size cfg = Z.of_nat (w * 32) /\ vc_patch_size cfg = None /\
      exists c1 c2 c3 c4, vc_layers cfg = LayersTuple c1 c2 c3 c4.
Proof.
  assert (Hp : sample_resnet_dict !! "visual.proj" = None) by (vm_compute; reflexivity).
  case_eq (openai_vision_cfg sample_resnet_dict); [|intros e E; vm_compute in E; discriminate].
  intros cfg E. exists cfg. split; [exact Hp|]. split; [reflexivity|].
  exact (openai_resnet_shape_inference sample_resnet_dict cfg Hp E).
Defined.

(** ** Normalized features of a plain model *)

Lemma l2norm_normalize_le (g : list R) : (Sparo.l2norm (Sparo.normalize g) <= 1)%R.
Proof.
  unfold Sparo.normalize. cbv zeta.
  set (d := Rmax (Sparo.l2norm g) Sparo.eps).
  assert (Hd : (Sparo.eps <= d)%R) by apply Rmax_r.
  assert (HN : (Sparo.l2norm g <= d)%R) by apply Rmax_l.
  pose proof eps_pos as He.
  assert (HN0 : (0 <= Sparo.l2norm g)%R) by apply sqrt_pos.
  unfold Sparo.l2norm at 1. rewrite map_map.
  rewrite (map_ext _ (fun a => (a * a) / (d * d))%R) by (intros a; field; lra).
  rewrite (Rsum_map_div (fun a => (a * a)%R)), <- l2norm_sq.
  rewrite <- sqrt_1. apply sqrt_le_1_alt.
  apply (Rmult_le_reg_r (d * d)); [nra|].
  unfold Rdiv. rewrite Rmult_assoc, Rinv_l by nra. nra.
Qed.

Lemma normalize_encoded_features (r : result Encoded) (f : list R) :
  normalize_encoded r = Ok (Features f) ->
  exists g, r = Ok (Features g) /\ f = Sparo.normalize g /\ (Sparo.l2norm f <= 1)%R /\
    ((Sparo.eps <= Sparo.l2norm g)%R -> Sparo.l2norm f = 1%R).
Proof.
  destruct r as [[g| |]|e]; cbn; try discriminate.
  intros E. injection E as <-. exists g. split; [reflexivity|]. split; [reflexivity|].
  split; [apply l2norm_normalize_le | apply l2norm_normalize_unit].
Qed.

(** With [normalize=True] a plain model's encoders return [F.normalize]
    of exactly what they return with [normalize=False] (and raise where
    that raises): a feature vector [f = F.normalize(g)] of norm at most 1,
    of norm exactly 1 unless the unnormalized features [g] are shorter than
    [eps]. *)
Theorem encode_plain_normalized
    (visual_forward : list R -> TowerOut) (img_query_model vision_bottleproj : list R -> list R)
    (text_bottleproj : list R -> list R) (H : Type) (text_trunk : list Z -> H)
    (text_attn_pool : option (H -> nat -> H)) (text_global_average_pool : bool)
    (ln_final : H -> H) (mean_tokens : H -> list R) (first_token select_token : H -> nat -> list R)
    (text_projection : list R -> list R) (txt_query_codebook : H -> nat -> list R)
    (text_sparo : H -> nat -> list R * list R)
    (self : CLIP) (image : list R) (tokens : list Z) (return_sparo return_attn : bool) :
  use_sparo self = false ->
  (encode_image visual_forward img_query_model vision_bottleproj self image true
     return_sparo return_attn =
   normalize_encoded (encode_image visual_forward img_query_model vision_bottleproj self image
                        false return_sparo return_attn) /\
   forall f,
     encode_image visual_forward img_query_model vision_bottleproj self image true
       return_sparo return_attn = Ok (Features f) ->
     exists g,
       encode_image visual_forward img_query_model vision_bottleproj self image false
         return_sparo return_attn = Ok (Features g) /\
       f = Sparo.normalize g /\ (Sparo.l2norm f <= 1)%R /\
       ((Sparo.eps <= Sparo.l2norm g)%R -> Sparo.l2norm f = 1%R)) /\
  (encode_text text_bottleproj H text_trunk text_attn_pool text_global_average_pool ln_final
     mean_tokens first_token select_token text_projection txt_query_codebook text_sparo
     self tokens true return_sparo return_attn =
   normalize_encoded
     (encode_text text_bottleproj H text_trunk text_attn_pool text_global_average_pool ln_final
        mean_tokens first_token select_token text_projection txt_query_codebook text_sparo
        self tokens false return_sparo return_attn) /\
   forall f,
     encode_text text_bottleproj H text_trunk text_attn_pool text_global_average_pool ln_final
       mean_tokens first_token select_token text_projection txt_query_codebook text_sparo
       self tokens true return_sparo return_attn = Ok (Features f) ->
     exists g,
       encode_text text_bottleproj H text_trunk text_attn_pool text_global_average_pool ln_final
         mean_tokens first_token select_token text_projection txt_query_codebook text_sparo
         self tokens false return_sparo return_attn = Ok (Features g) /\
       f = Sparo.normalize g /\ (Sparo.l2norm f <= 1)%R /\
       ((Sparo.eps <= Sparo.l2norm g)%R -> Sparo.l2norm f = 1%R)).
Proof.
  intros Hs.
  assert (Hi : encode_image visual_forward img_query_model vision_bottleproj self image true
                 return_sparo return_attn =
               normalize_encoded (encode_image visual_forward img_query_model vision_bottleproj
                                    self image false return_sparo return_attn)).
  { unfold encode_image. rewrite Hs. cbn [negb].
    destruct (visual_forward image); reflexivity. }
  assert (Ht : encode_text text_bottleproj H text_trunk text_attn_pool text_global_average_pool
                 ln_final mean_tokens first_token select_token text_projection
                 txt_query_codebook text_sparo self tokens true return_sparo return_attn =
               normalize_encoded
                 (encode_text text_bottleproj H text_trunk text_attn_pool
                    text_global_average_pool ln_final mean_tokens first_token select_token
                    text_projection txt_query_codebook text_sparo self tokens false
                    return_sparo return_attn)).
  { unfold encode_text. rewrite Hs. cbn [negb].
    destruct (use_codebook self), text_attn_pool, text_global_average_pool; reflexivity. }
  split; (split; [assumption|]); intros f E;
    apply normalize_encoded_features; congruence.
Qed.

Lemma encode_plain_normalized_witness :
  encode_image (fun _ => Plain [3; 4]%R) ident_vec ident_vec sample_plain_clip [] true
    false false = Ok (Features (Sparo.normalize [3; 4]%R)) /\
  exists g,
    encode_image (fun _ => Plain [3; 4]%R) ident_vec ident_vec sample_plain_clip [] false
      false false = Ok (Features g) /\
    Sparo.normalize [3; 4]%R = Sparo.normalize g /\
    (Sparo.l2norm (Sparo.normalize [3; 4]%R) <= 1)%R /\
    ((Sparo.eps <= Sparo.l2norm g)%R -> Sparo.l2norm (Sparo.normalize [3; 4]%R) = 1%R).
Proof.
  assert (E : encode_image (fun _ => Plain [3; 4]%R) ident_vec ident_vec sample_plain_clip []
                true false false = Ok (Features (Sparo.normalize [3; 4]%R)))
    by reflexivity.
  split; [exact E|].
  exact (proj2 (proj1 (encode_plain_normalized (fun _ => Plain [3; 4]%R) ident_vec ident_vec
           ident_vec unit (fun _ => tt) None false (fun h => h) (fun _ => []) (fun _ _ => [])
           (fun _ _ => []) ident_vec (fun _ _ => []) (fun _ _ => ([], []))
           sample_plain_clip [] [1; 2] false false eq_refl)) _ E).
Defined.

(** ** Towers of a SPARO model *)

(** When [CLIP.__init__] succeeds with [use_sparo] and neither tower is
    delegated to [timm] or Hugging Face, it has built exactly two towers,
    in order, and both are SPARO towers of output width
    [bottleneck_dim or embed_dim], with [L] slots of [model_V] values. *)
Theorem CLIP_init_sparo_towers (a : CLIPArgs) (ev : list build_event) (clip : CLIP) :
  a_use_sparo a = true ->
  str_truthy (vc_timm_model_name (a_vision_cfg a)) = false ->
  str_truthy (tc_hf_model_name (a_text_cfg a)) = false ->
  CLIP_init a = (ev, Ok clip) ->
  ev = [BuiltVisual (visual clip); BuiltText (text clip)] /\
  (exists iz ps w ly h act nrm,
     visual clip = SPAROVisionTransformer iz ps w ly h
                     (or_int (a_bottleneck_dim a) (a_embed_dim a)) act nrm (L clip) (model_V clip)) /\
  (exists cl vs w h ly act nrm,
     text clip = SPAROTextTransformer cl vs w h ly
                   (or_int (a_bottleneck_dim a) (a_embed_dim a)) act nrm (L clip) (model_V clip)).
Proof.
  intros Hs Hv Ht E. unfold CLIP_init in E. rewrite Hs in E.
  destruct (a_use_codebook a); cbn [andb] in E; [discriminate|].
  repeat (match type of E with
          | context [match ?m with Ok _ => _ | Err _ => _ end] =>
              let Hm := fresh "Hm" in destruct m eqn:Hm; [|discriminate]
          end).
  injection E as <- <-. cbn [visual text L model_V]. split; [reflexivity|].
  rename Hm0 into Hvis, Hm1 into Htxt.
  unfold _build_vision_tower in Hvis. rewrite Hv in Hvis.
  revert Hvis. destruct (vc_layers (a_vision_cfg a)); cbn; intros Hvis; [|discriminate Hvis].
  revert Hvis. destruct (floordiv _ _); cbn; intros Hvis; [|discriminate Hvis].
  injection Hvis as <-.
  unfold _build_text_tower in Htxt. rewrite Ht in Htxt. cbn in Htxt. injection Htxt as <-.
  split; do 7 eexists; reflexivity.
Qed.

(** The residual (ModifiedResNet) vision path refuses SPARO: with a
    layer tuple, no [timm] model and a valid [model_V], [CLIP.__init__]
    raises [AssertionError] before building any tower. *)
Theorem CLIP_init_sparo_resnet_refused (a : CLIPArgs) (l0 l1 l2 l3 : Z) :
  a_use_sparo a = true -> a_use_codebook a = false ->
  str_truthy (vc_timm_model_name (a_vision_cfg a)) = false ->
  vc_layers (a_vision_cfg a) = LayersTuple l0 l1 l2 l3 ->
  (endswith (a_sparo_type a) "softmax" = true -> is_Some (a_V a)) ->
  CLIP_init a = ([], Err AssertionError).
Proof.
  intros Hs Hc Ht Hl HV. unfold CLIP_init. rewrite Hs, Hc. cbn [andb negb orb].
  unfold _build_vision_tower. rewrite Ht, Hl. cbn.
  destruct (endswith (a_sparo_type a) "softmax") eqn:He; cbn; [|reflexivity].
  destruct (HV eq_refl) as [v ->]. reflexivity.
Qed.

Lemma CLIP_init_sparo_towers_witness :
  exists ev clip, CLIP_init (sample_sparo_args 2 1 "cont:softmax") = (ev, Ok clip) /\
    ev = [BuiltVisual (visual clip); BuiltText (text clip)] /\
    (exists iz ps w ly h act nrm,
       visual clip = SPAROVisionTransformer iz ps w ly h 512 act nrm (L clip) (model_V clip)) /\
    (exists cl vs w h ly act nrm,
       text clip = SPAROTextTransformer cl vs w h ly 512 act nrm (L clip) (model_V clip)).
Proof.
  case_eq (CLIP_init (sample_sparo_args 2 1 "cont:softmax")); intros ev [clip|e] E;
    [|vm_compute in E; discriminate].
  exists ev, clip. split; [reflexivity|].
  exact (CLIP_init_sparo_towers (sample_sparo_args 2 1 "cont:softmax") ev clip
           eq_refl eq_refl eq_refl E).
Defined.

Lemma CLIP_init_sparo_resnet_refused_witness :
  CLIP_init rn50_sparo_args = ([], Err AssertionError).
Proof.
  apply (CLIP_init_sparo_resnet_refused rn50_sparo_args 3 4 6 3);
    try reflexivity.
  intros H. discriminate H.
Defined.

(** ** Strict loading of a state dict *)

Section LoadRoundTrip.

Variable cast_bits : dtype -> dtype -> list Z -> list Z.

Lemma tensor_to_shape (t : Tensor) (dt : dtype) : shape (tensor_to cast_bits t dt) = shape t.
Proof. unfold tensor_to. by case_decide. Qed.

(** [load_into] replaces every tensor of the tree by the entry of the
    dict under its state-dict key, cast to the tensor's dtype. *)
Lemma module_tensors_load_into (d : gmap string Tensor) (m : nnModule) :
  forall p, module_tensors p (load_into cast_bits d p m) =
  map (fun kt => (fst kt, match d !! fst kt with
                          | Some v => tensor_to cast_bits v (tdtype (snd kt))
                          | None => snd kt
                          end)) (module_tensors p m).
Proof.
  induction m as [k ps cs IH] using nnModule_ind_nested. intros p.
  cbn [load_into module_tensors]. rewrite map_app. f_equal.
  - clear IH. induction ps as [|[n [t|]] ps IHps]; cbn; [reflexivity| |exact IHps].
    rewrite IHps. reflexivity.
  - induction cs as [|[n c] cs IHcs]; [reflexivity|].
    inversion IH as [|? ? Hc IH']; subst. cbn [snd] in Hc.
    cbn. rewrite map_app, Hc, IHcs by exact IH'. reflexivity.
Qed.

(** A successful strict [load_state_dict] keeps every key, shape and
    dtype of the model, replaces every tensor by the dict's entry under
    its key (cast to the tensor's dtype), and the dict has no other key. *)
Theorem load_state_dict_roundtrip (m m' : nnModule) (d : gmap string Tensor) :
  load_state_dict cast_bits m d = Ok m' ->
  map (fun kt => (fst kt, shape (snd kt), tdtype (snd kt))) (module_tensors "" m') =
  map (fun kt => (fst kt, shape (snd kt), tdtype (snd kt))) (module_tensors "" m) /\
  Forall (fun kt => exists v, d !! fst kt = Some v /\
                              snd kt = tensor_to cast_bits v (tdtype (snd kt)))
         (module_tensors "" m') /\
  dom d = list_to_set (map fst (module_tensors "" m')).
Proof.
  unfold load_state_dict. cbv zeta.
  destruct (bool_decide _ && forallb _ _) eqn:Hok; [|discriminate].
  intros E. injection E as <-.
  apply andb_true_iff in Hok as [Hdom Hall].
  apply bool_decide_eq_true_1 in Hdom. rewrite List.forallb_forall in Hall.
  assert (Hin : Forall (fun kt => exists v, d !! fst kt = Some v /\ shape v = shape (snd kt))
                       (module_tensors "" m)).
  { apply List.Forall_forall. intros [k t] Hkt. specialize (Hall _ Hkt). cbn in Hall |- *.
    destruct (d !! k) as [v|]; [|discriminate]. exists v. split; [reflexivity|].
    exact (bool_decide_eq_true_1 _ Hall). }
  rewrite module_tensors_load_into.
  split; [|split].
  - rewrite map_map. apply map_ext_Forall. eapply Forall_impl; [exact Hin|].
    intros [k t] (v & Hv & Hs). cbn in *. rewrite Hv, tensor_to_shape, tensor_to_dtype, Hs.
    reflexivity.
  - apply Forall_map. eapply Forall_impl; [exact Hin|].
    intros [k t] (v & Hv & _). cbn in *. rewrite Hv. exists v. split; [reflexivity|].
    by rewrite tensor_to_dtype.
  - rewrite map_map. cbn. rewrite <- Hdom. reflexivity.
Qed.

End LoadRoundTrip.


(** ** What the precision converter changes *)

Section ConvertShapes.

Variable cast_bits : dtype -> dtype -> list Z -> list Z.
Variable dt : dtype.

Lemma Forall2_params_refl (ps : list (string * option Tensor)) :
  Forall2 (fun nt nt' => fst nt' = fst nt /\
             (snd nt' = snd nt \/ snd nt' = (fun x => tensor_to cast_bits x dt) <$> snd nt)) ps ps.
Proof. induction ps; constructor; auto. Qed.

Lemma set_converted_params (name : string) (ps : list (string * option Tensor)) :
  Forall2 (fun nt nt' => fst nt' = fst nt /\
             (snd nt' = snd nt \/ snd nt' = (fun x => tensor_to cast_bits x dt) <$> snd nt))
          ps (set_converted cast_bits dt name ps).
Proof.
  induction ps as [|[n t] ps IH]; cbn; constructor; [|exact IH].
  destruct (String.eqb n name); cbn; auto.
Qed.

Lemma Forall2_params_trans (ps1 ps2 ps3 : list (string * option Tensor)) :
  Forall2 (fun nt nt' => fst nt' = fst nt /\
             (snd nt' = snd nt \/ snd nt' = (fun x => tensor_to cast_bits x dt) <$> snd nt)) ps1 ps2 ->
  Forall2 (fun nt nt' => fst nt' = fst nt /\
             (snd nt' = snd nt \/ snd nt' = (fun x => tensor_to cast_bits x dt) <$> snd nt)) ps2 ps3 ->
  Forall2 (fun nt nt' => fst nt' = fst nt /\
             (snd nt' = snd nt \/ snd nt' = (fun x => tensor_to cast_bits x dt) <$> snd nt)) ps1 ps3.
Proof.
  intros H12. revert ps3. induction H12 as [|x y ps1 ps2 [Hn1 Ht1] _ IH]; intros ps3 H23;
    inversion H23 as [|? z ? ps3' [Hn2 Ht2] H23']; subst; constructor; auto.
  split; [congruence|].
  destruct Ht1 as [E1|E1], Ht2 as [E2|E2]; rewrite E2, ?E1; auto.
  right. destruct (snd x); cbn; [|reflexivity]. by rewrite tensor_to_idem.
Qed.

Lemma convert_all_required_params (names : list string) (ps ps' : list (string * option Tensor)) :
  convert_all_required cast_bits dt names ps = Ok ps' ->
  Forall2 (fun nt nt' => fst nt' = fst nt /\
             (snd nt' = snd nt \/ snd nt' = (fun x => tensor_to cast_bits x dt) <$> snd nt)) ps ps'.
Proof.
  revert ps. induction names as [|n names IH]; intros ps E; cbn in E.
  - injection E as <-. apply Forall2_params_refl.
  - unfold convert_required in E. destruct (getattr ps n); cbn in E; [|discriminate].
    eapply Forall2_params_trans; [apply set_converted_params | exact (IH _ E)].
Qed.

(** [_convert_weights] keeps every attribute name and changes a tensor
    only by casting it to the target dtype. *)
Lemma _convert_weights_params (k : mkind) (ps ps' : list (string * option Tensor)) :
  _convert_weights cast_bits dt k ps = Ok ps' ->
  Forall2 (fun nt nt' => fst nt' = fst nt /\
             (snd nt' = snd nt \/ snd nt' = (fun x => tensor_to cast_bits x dt) <$> snd nt)) ps ps'.
Proof.
  intros E. destruct k; unfold _convert_weights in E;
    try (injection E as <-; first [apply set_converted_params | apply Forall2_params_refl]);
    try (exact (convert_all_required_params _ _ _ E)).
  all: destruct (getattr ps "weight") as [[w|]|]; try discriminate;
       destruct (getattr (set_converted cast_bits dt "weight" ps) "bias"); try discriminate;
       injection E as <-;
       (eapply Forall2_params_trans; [apply set_converted_params | apply set_converted_params]).
Qed.

Lemma omap_params (p : string) (ps ps' : list (string * option Tensor)) :
  Forall2 (fun nt nt' => fst nt' = fst nt /\
             (snd nt' = snd nt \/ snd nt' = (fun x => tensor_to cast_bits x dt) <$> snd nt)) ps ps' ->
  Forall2 (fun kt kt' => fst kt' = fst kt /\
             (snd kt' = snd kt \/ snd kt' = tensor_to cast_bits (snd kt) dt))
    (omap (fun '(n, t) => (fun x => (String.append p n, x)) <$> t) ps)
    (omap (fun '(n, t) => (fun x => (String.append p n, x)) <$> t) ps').
Proof.
  induction 1 as [|[n t] [n' t'] ps ps' [Hn Ht] _ IH]; cbn in *; [constructor|]. subst n'.
  destruct Ht as [->| ->]; destruct t as [t|]; cbn; auto.
Qed.

Lemma convert_weights_to_lp_tensors (m m' : nnModule) (p : string) :
  convert_weights_to_lp cast_bits dt m = Ok m' ->
  Forall2 (fun kt kt' => fst kt' = fst kt /\ shape (snd kt') = shape (snd kt) /\
             (snd kt' = snd kt \/ snd kt' = tensor_to cast_bits (snd kt) dt))
    (module_tensors p m) (module_tensors p m').
Proof.
  revert m' p.
  induction m as [k ps cs IH] using nnModule_ind_nested; intros m' p E.
  cbn [convert_weights_to_lp] in E.
  destruct (mapM_result _ cs) as [cs'|] eqn:Ecs; cbn in E; [|discriminate].
  destruct (_convert_weights cast_bits dt k ps) as [ps'|] eqn:Eps; cbn in E; [|discriminate].
  injection E as <-. cbn [module_tensors]. apply Forall2_app.
  - eapply Forall2_impl; [exact (omap_params p _ _ (_convert_weights_params _ _ _ Eps))|].
    intros kt kt' [Hn [Ht|Ht]]; rewrite Ht; [auto|]. split; [exact Hn|].
    split; [apply tensor_to_shape | auto].
  - clear ps ps' Eps. revert cs' Ecs p. induction cs as [|[n c] cs IHcs]; intros cs' Ecs p;
      cbn in Ecs.
    + injection Ecs as <-. constructor.
    + inversion IH as [|? ? Hc IH']; subst. cbn [snd] in Hc.
      destruct (convert_weights_to_lp cast_bits dt c) as [c'|] eqn:Ec; cbn in Ecs; [|discriminate].
      destruct (mapM_result _ cs) as [cs''|] eqn:Ecs'; cbn in Ecs; [|discriminate].
      injection Ecs as <-. cbn. apply Forall2_app; [exact (Hc _ _ eq_refl)|].
      exact (IHcs IH' cs'' eq_refl p).
Qed.

(** [convert_weights_to_lp] never renames, adds or drops a tensor of the
    state dict: tensor for tensor, the key is the same and the tensor is
    either untouched or cast to the target dtype (so its shape is kept). *)
Theorem convert_weights_to_lp_keys_shapes (m m' : nnModule) (p : string) :
  convert_weights_to_lp cast_bits dt m = Ok m' ->
  Forall2 (fun kt kt' => fst kt' = fst kt /\ shape (snd kt') = shape (snd kt) /\
             (snd kt' = snd kt \/ snd kt' = tensor_to cast_bits (snd kt) dt))
    (module_tensors p m) (module_tensors p m').
Proof. exact (convert_weights_to_lp_tensors m m' p). Qed.

End ConvertShapes.

Lemma convert_weights_to_lp_keys_shapes_witness :
  exists m', convert_weights_to_lp keep_bits bfloat16 sample_module = Ok m' /\
  Forall2 (fun kt kt' => fst kt' = fst kt /\ shape (snd kt') = shape (snd kt) /\
             (snd kt' = snd kt \/ snd kt' = tensor_to keep_bits (snd kt) bfloat16))
    (module_tensors "" sample_module) (module_tensors "" m').
Proof.
  case_eq (convert_weights_to_lp keep_bits bfloat16 sample_module);
    [|intros e E; vm_compute in E; discriminate].
  intros m' E. exists m'. split; [reflexivity|].
  exact (convert_weights_to_lp_keys_shapes keep_bits bfloat16 sample_module m' "" E).
Defined.

(** ** Building a model from a legacy export *)

Lemma Forall2_map_eq {A B} (f : A -> B) (l l' : list A) :
  Forall2 (fun a a' => f a' = f a) l l' -> map f l' = map f l.
Proof. induction 1; cbn; f_equal; auto. Qed.

Lemma dom_pop_unused_keys (d : gmap string Tensor) :
  dom (pop_unused_keys d) = dom d ∖ list_to_set openai_unused_keys.
Proof.
  apply set_eq. intros k. rewrite elem_of_difference, !elem_of_dom, elem_of_list_to_set.
  rewrite pop_unused_keys_lookup. case_decide; [split; [intros []; discriminate|tauto]|].
  tauto.
Qed.

(** A successful [build_model_from_openai_state_dict] returns a model in
    eval mode whose state dict has exactly the keys of the export other
    than [input_resolution], [context_length] and [vocab_size]; every
    tensor keeps the key and shape it had in the freshly built model and
    holds the export's entry under that key, cast to its dtype. *)
Theorem build_model_loads_export
    (cast_bits : dtype -> dtype -> list Z -> list Z) (init_modules : CLIP -> nnModule)
    (d d' : gmap string Tensor) (quick_gelu : bool) (cast_dtype : option dtype)
    (lm : LoadedModel) :
  build_model_from_openai_state_dict cast_bits init_modules d quick_gelu cast_dtype =
    (d', Ok lm) ->
  lm_training lm = false /\
  list_to_set (map fst (module_tensors "" (lm_module lm))) =
    dom d ∖ list_to_set openai_unused_keys /\
  map (fun kt => (fst kt, shape (snd kt))) (module_tensors "" (lm_module lm)) =
    map (fun kt => (fst kt, shape (snd kt))) (module_tensors "" (init_modules (lm_clip lm))) /\
  Forall (fun kt => exists v, d !! fst kt = Some v /\
                              snd kt = tensor_to cast_bits v (tdtype (snd kt)))
         (module_tensors "" (lm_module lm)).
Proof.
  unfold build_model_from_openai_state_dict.
  destruct (openai_vision_cfg d) as [vcfg|]; cbn -[CLIP_init pop_unused_keys openai_unused_keys];
    [|discriminate].
  destruct (openai_text_cfg d) as [[e tcfg]|]; cbn -[CLIP_init pop_unused_keys openai_unused_keys];
    [|discriminate].
  match goal with |- context [snd (CLIP_init ?a)] => destruct (snd (CLIP_init a)) as [clip|] end;
    [|discriminate].
  intros E. injection E as _ E.
  destruct (convert_weights_to_lp cast_bits float16 (init_modules clip)) as [m1|] eqn:E1;
    cbn in E; [|discriminate].
  change (delete "vocab_size" (delete "context_length" (delete "input_resolution" d)))
    with (pop_unused_keys d) in E.
  destruct (load_state_dict cast_bits m1 (pop_unused_keys d)) as [m2|] eqn:E2;
    cbn in E; [|discriminate].
  injection E as <-. cbn [lm_training lm_module lm_clip].
  destruct (load_state_dict_roundtrip cast_bits m1 m2 _ E2) as (Hks & Hval & Hdom).
  split; [reflexivity|]. split; [|split].
  - rewrite <- Hdom. apply dom_pop_unused_keys.
  - pose proof (f_equal (map (fun kst => (fst (fst kst), snd (fst kst)))) Hks) as Hks'.
    rewrite !map_map in Hks'. cbn in Hks'. rewrite Hks'.
    apply Forall2_map_eq.
    eapply Forall2_impl; [exact (convert_weights_to_lp_tensors cast_bits float16 _ _ "" E1)|].
    intros kt kt' (Hn & Hs & _). cbn. rewrite Hn, Hs. reflexivity.
  - eapply Forall_impl; [exact Hval|]. intros kt (v & Hv & Ht).
    rewrite pop_unused_keys_lookup in Hv. case_decide; [discriminate|].
    exists v. split; assumption.
Qed.

Lemma build_model_loads_export_witness :
  exists d' lm,
    build_model_from_openai_state_dict keep_bits
      (fun _ => flat_module (pop_unused_keys sample_openai_dict))
      sample_openai_dict true (Some float16) = (d', Ok lm) /\
    lm_training lm = false /\
    list_to_set (map fst (module_tensors "" (lm_module lm))) =
      dom sample_openai_dict ∖ list_to_set openai_unused_keys /\
    map (fun kt => (fst kt, shape (snd kt))) (module_tensors "" (lm_module lm)) =
      map (fun kt => (fst kt, shape (snd kt)))
          (module_tensors "" (flat_module (pop_unused_keys sample_openai_dict))) /\
    Forall (fun kt => exists v, sample_openai_dict !! fst kt = Some v /\
                                snd kt = tensor_to keep_bits v (tdtype (snd kt)))
           (module_tensors "" (lm_module lm)).
Proof.
  case_eq (build_model_from_openai_state_dict keep_bits
             (fun _ => flat_module (pop_unused_keys sample_openai_dict))
             sample_openai_dict true (Some float16)).
  intros d' [lm|e] E;
    [|apply (f_equal (fun r => Sparo.is_ok (snd r))) in E; vm_compute in E; discriminate].
  exists d', lm. split; [reflexivity|].
  exact (build_model_loads_export keep_bits
           (fun _ => flat_module (pop_unused_keys sample_openai_dict))
           sample_openai_dict d' true (Some float16) lm E).
Defined.

(** ** Image features of a SPARO model *)

(** In SPARO mode, [encode_image] with [normalize=True] (as [forward]
    calls it) and without [return_sparo] returns a unit vector: the
    flattened slots of [_project_for_sparo] on the tower output, under the
    conditions of the projection's unit norm. *)
Theorem encode_image_sparo_unit_norm
    (visual_forward : list R -> TowerOut) (img_query_model vision_bottleproj : list R -> list R)
    (self : CLIP) (image out attn : list R) (l mv : Z) (rep nt : string) (return_attn : bool) :
  use_sparo self = true -> visual_forward image = WithAttn out attn ->
  L self = Some l -> model_V self = Some mv ->
  sparo_type self = String.append rep (String.append ":" nt) ->
  In rep ["cont"; "sqrtsem"; "sem"]%string ->
  In nt ["sqrtsoftmax"; "softmax"; "const"; "norm"]%string ->
  (rep, nt) <> ("sem", "norm")%string ->
  1 <= l -> (if String.eqb nt "sqrtsoftmax" || String.eqb nt "softmax" then 2 else 1) <= mv ->
  Z.of_nat (length out) = l * mv -> l * mv < 2 ^ 63 ->
  (rep = "cont"%string ->
   Forall (fun r => (Sparo.eps <= Sparo.l2norm r)%R)
     (if String.eqb nt "sqrtsoftmax" || String.eqb nt "softmax"
      then Sparo.drop_first_channel (chunks (Z.to_nat mv) (Z.to_nat l) out)
      else chunks (Z.to_nat mv) (Z.to_nat l) out)) ->
  exists f, encode_image visual_forward img_query_model vision_bottleproj self image true
              false return_attn = Ok (Features f) /\ Sparo.l2norm f = 1%R.
Proof.
  intros Hs Hvf HL HV Ht Hr Hn Hne Hl Hmv Hlen Hsz Hcont.
  destruct (project_for_sparo_unit self l mv rep nt out HL HV Ht Hr Hn Hne Hl Hmv Hlen Hsz Hcont)
    as (slots & Hp & Hu).
  exists (concat slots). unfold encode_image. rewrite Hs, Hvf. cbn.
  unfold sparo_tail. rewrite Hp. split; [reflexivity | exact Hu].
Qed.

Lemma encode_image_sparo_unit_norm_witness :
  exists f, encode_image (fun _ => WithAttn [1; 2; 3; 4]%R []) ident_vec ident_vec
              (sample_clip "sem:softmax") [] true false false = Ok (Features f) /\
            Sparo.l2norm f = 1%R.
Proof.
  apply (encode_image_sparo_unit_norm (fun _ => WithAttn [1; 2; 3; 4]%R []) ident_vec ident_vec
           (sample_clip "sem:softmax") [] [1; 2; 3; 4]%R [] 2 2 "sem" "softmax" false);
    try reflexivity; try (cbn; tauto); try lia.
  - intros H. discriminate H.
  - intros H. discriminate H.
Defined.
